(** * Search-Engine: the query proxy and the crawl pipeline

    A shallow embedding of the query proxy of the repository
    ([backend/main.go], the Gin server, and [api/search.js], the serverless
    variant of the same endpoint) and of the crawl pipeline described in
    the specification, followed by the properties proved about them.

    Layout: [Module Backend] (Go), [Module Api] (JavaScript),
    [Module Crawler] (the crawl pipeline), [Module Server] (the other
    routes of the Go server and its start), [Module Wire] (the JSON body
    of the Go response), [Module ApiClient] and [Module Frontend] (the
    React page), then the lemmas. *)

From Stdlib Require Import ZArith String Ascii List Lia Floats.
From stdpp Require Import base strings pretty list gmap.

Set Warnings "-register-all,-clear-no-such-hyp".
Set Default Proof Using "Type".

(* ===================================================================== *)
(** * backend/main.go *)
(* ===================================================================== *)

Module Backend.

Local Open Scope Z_scope.

(** ** Go values and errors *)

(** What an [interface{}] holds once the Meilisearch client has decoded a
    JSON response: nil, bool, float64, string, []interface{} or
    map[string]interface{}. *)
Inductive Value : Type :=
  | VNil
  | VBool (b : bool)
  | VFloat64 (f : PrimFloat.float)
  | VString (s : string)
  | VSlice (l : list Value)
  | VMap (m : gmap string Value).

(** A Go [error] value, seen through the text its [Error()] method returns
    (what [%v] prints). *)
Record error : Type := errors_New { error_text : string }.

(** A Go [(T, error)] result whose value is only read when the error is nil. *)
Inductive result (A : Type) : Type :=
  | Ok (a : A)
  | Fail (err : error).
Arguments Ok {A} a.
Arguments Fail {A} err.

(** ** strconv.Atoi (64-bit [int]) *)

Module strconv.

Inductive NumError : Type := ErrSyntax | ErrRange.

Definition maxUint64 : Z := 2 ^ 64 - 1.

(** Cutoff is the smallest number such that cutoff * 10 > maxUint64. *)
Definition cutoff10 : Z := maxUint64 / 10 + 1.

Definition is_digit (c : ascii) : bool :=
  (48 <=? Z.of_nat (nat_of_ascii c)) && (Z.of_nat (nat_of_ascii c) <=? 57).

(** The digit loop of [ParseUint(s, 10, 64)]: the error met first, reading
    left to right, is the one reported; a range error returns maxVal. *)
Fixpoint parse_uint_loop (n : Z) (s : string) : Z * option NumError :=
  match s with
  | EmptyString => (n, None)
  | String c rest =>
      if negb (is_digit c) then (0, Some ErrSyntax)
      else
        let d := Z.of_nat (nat_of_ascii c) - 48 in
        if cutoff10 <=? n then (maxUint64, Some ErrRange)
        else
          let n1 := n * 10 + d in
          if maxUint64 <? n1 then (maxUint64, Some ErrRange)
          else parse_uint_loop n1 rest
  end.

Definition ParseUint (s : string) : Z * option NumError :=
  match s with
  | EmptyString => (0, Some ErrSyntax)
  | _ => parse_uint_loop 0 s
  end.

(** [ParseInt(s, 10, 0)] with IntSize = 64. *)
Definition ParseInt (s : string) : Z * option NumError :=
  match s with
  | EmptyString => (0, Some ErrSyntax)
  | String c rest =>
      let neg := Ascii.eqb c "-" in
      let body := if Ascii.eqb c "+" || Ascii.eqb c "-" then rest else s in
      match ParseUint body with
      | (_, Some ErrSyntax) => (0, Some ErrSyntax)
      | (un, _) =>
          let cutoff := 2 ^ 63 in
          if negb neg && (cutoff <=? un) then (cutoff - 1, Some ErrRange)
          else if neg && (cutoff <? un) then (- cutoff, Some ErrRange)
          else (if neg then - un else un, None)
      end
  end.

(** [Atoi(s)] is [ParseInt(s, 10, 0)] converted to [int]; its fast path
    for short strings computes the same value and the same error. *)
Definition Atoi (s : string) : Z * option NumError := ParseInt s.

End strconv.

(** ** encoding/json, as far as [performSearch] uses it *)

Module json.

(** The bytes produced by [Marshal], identified with the JSON document
    they spell. Strings are taken to be valid UTF-8, as decoded JSON is;
    on those, encoding and decoding again gives the same value. *)
Inductive Bytes : Type := Encoded (v : Value).

Definition float_finite (f : PrimFloat.float) : bool :=
  negb (PrimFloat.is_nan f || PrimFloat.is_infinity f).

(** [Marshal] rejects NaN and the infinities wherever they occur. *)
Fixpoint encodable (v : Value) : bool :=
  match v with
  | VNil | VBool _ | VString _ => true
  | VFloat64 f => float_finite f
  | VSlice l => forallb encodable l
  | VMap m => map_fold (λ _ x acc, encodable x && acc) true m
  end.

Definition Marshal (v : Value) : result Bytes :=
  if encodable v then Ok (Encoded v)
  else Fail (errors_New "json: unsupported value").

(** [Unmarshal(data, &doc)] with [doc] a nil [map[string]interface{}]:
    an object fills the map, [null] leaves it nil (which reads as the
    empty map), any other document is a type error. *)
Definition Unmarshal (data : Bytes) : result (gmap string Value) :=
  match data with
  | Encoded (VMap m) => Ok m
  | Encoded VNil => Ok ∅
  | Encoded _ =>
      Fail (errors_New
        "json: cannot unmarshal value into Go value of type map[string]interface {}")
  end.

End json.

(** ** The Meilisearch client *)

Module meilisearch.

Record SearchRequest : Type := {
  Limit : Z;
  AttributesToHighlight : list string;
  HighlightPreTag : string;
  HighlightPostTag : string;
  AttributesToCrop : list string;
  CropLength : Z;
  ShowMatchesPosition : bool;
  AttributesToRetrieve : list string
}.

(** Of the engine's answer only [Hits] is read. *)
Record SearchResponse : Type := { Hits : list Value }.

(** One [client.Index(uid).Search(query, request)] round trip. *)
Record Call : Type := {
  call_index : string;
  call_query : string;
  call_request : SearchRequest
}.

(** The client with the engine behind it: what each call answers. *)
Definition Client : Type := Call → result SearchResponse.

End meilisearch.

(** ** Calls to the engine as an effect

    A computation reads the log of calls made so far and extends it. *)

Definition IO (A : Type) : Type :=
  list meilisearch.Call → A * list meilisearch.Call.

Definition io_ret {A} (a : A) : IO A := λ log, (a, log).

Definition io_bind {A B} (m : IO A) (k : A → IO B) : IO B :=
  λ log, let '(a, log') := m log in k a log'.

Notation "x ⇐ m ;; k" := (io_bind m (λ x, k))
  (at level 100, m at next level, right associativity).

Definition index_Search (client : meilisearch.Client) (indexName query : string)
    (request : meilisearch.SearchRequest) : IO (result meilisearch.SearchResponse) :=
  λ log,
    let call := {| meilisearch.call_index := indexName;
                   meilisearch.call_query := query;
                   meilisearch.call_request := request |} in
    (client call, log ++ [call]).

(** Run a computation from the empty log. *)
Definition io_run {A} (m : IO A) : A * list meilisearch.Call := m [].

(** ** Types of main.go *)

(** [Score] is a float64 holding [float64(len(hits) - i)], an integer that
    the conversion represents exactly; it is kept as that integer. *)
Record SearchResult : Type := {
  ID : string;
  Title : string;
  Content : string;
  URL : string;
  Score : Z
}.

(** The struct value. In its JSON encoding every field but [success] is
    tagged omitempty and left out when it is empty. *)
Record SearchResponse : Type := {
  Success : bool;
  Results : list SearchResult;
  Error : string;
  Query : string;
  Total : Z
}.

Record Config : Type := {
  MeilisearchURL : string;
  MeilisearchKey : string;
  Port : string;
  IndexName : string
}.

(** ** Configuration *)

(** The process environment; [os.Getenv] returns the empty string for a
    variable that is not set. *)
Definition os_Getenv (env : gmap string string) (key : string) : string :=
  default "" (env !! key).

Definition getEnv (env : gmap string string) (key defaultValue : string) : string :=
  let value := os_Getenv env key in
  if bool_decide (value ≠ "") then value else defaultValue.

Definition loadConfig (env : gmap string string) : Config :=
  {| MeilisearchURL := getEnv env "MEILISEARCH_URL" "http://meilisearch:7700";
     MeilisearchKey := getEnv env "MEILISEARCH_KEY" "masterKey123";
     Port := getEnv env "PORT" "8080";
     IndexName := getEnv env "INDEX_NAME" "documents" |}.

(** ** performSearch *)

Definition getString (m : gmap string Value) (key : string) : string :=
  match m !! key with
  | Some (VString str) => str
  | _ => ""
  end.

(** The [for i, hit := range searchRes.Hits] loop: [n] is
    [len(searchRes.Hits)], [i] the index of the head of [hits], [results]
    the slice appended to so far. *)
Fixpoint range_hits (n i : Z) (hits : list Value) (results : list SearchResult)
    : list SearchResult :=
  match hits with
  | [] => results
  | hit :: rest =>
      match json.Marshal hit with
      | Fail _ => range_hits n (i + 1) rest results
      | Ok hitBytes =>
          match json.Unmarshal hitBytes with
          | Fail _ => range_hits n (i + 1) rest results
          | Ok doc =>
              let result :=
                {| ID := getString doc "id";
                   Title := getString doc "title";
                   Content := getString doc "content";
                   URL := getString doc "url";
                   Score := n - i |} in
              range_hits n (i + 1) rest (results ++ [result])
          end
      end
  end.

Definition performSearch (client : meilisearch.Client) (indexName query : string)
    (limit : Z) : IO (result (list SearchResult)) :=
  searchRes ⇐ index_Search client indexName query
      {| meilisearch.Limit := limit;
         meilisearch.AttributesToHighlight := ["title"; "content"];
         meilisearch.HighlightPreTag := "<mark>";
         meilisearch.HighlightPostTag := "</mark>";
         meilisearch.AttributesToCrop := ["content"];
         meilisearch.CropLength := 200;
         meilisearch.ShowMatchesPosition := true;
         meilisearch.AttributesToRetrieve := ["*"] |} ;;
  match searchRes with
  | Fail err => io_ret (Fail err)
  | Ok res =>
      let hits := meilisearch.Hits res in
      io_ret (Ok (range_hits (Z.of_nat (length hits)) 0 hits []))
  end.

(** ** The GET /search handler *)

(** The request as Gin sees it: the key/value pairs of the URL query in
    the order they were written. *)
Record Context : Type := { query_pairs : list (string * string) }.

Fixpoint GetQuery (pairs : list (string * string)) (key : string) : option string :=
  match pairs with
  | [] => None
  | (k, v) :: rest => if bool_decide (k = key) then Some v else GetQuery rest key
  end.

(** [c.Query(key)]: the first value of [key], or the empty string. *)
Definition Query_ (c : Context) (key : string) : string :=
  default "" (GetQuery (query_pairs c) key).

(** [c.DefaultQuery(key, defaultValue)]: the default only when the key is
    absent. *)
Definition DefaultQuery (c : Context) (key defaultValue : string) : string :=
  default defaultValue (GetQuery (query_pairs c) key).

Definition StatusOK : Z := 200.
Definition StatusBadRequest : Z := 400.
Definition StatusInternalServerError : Z := 500.

(** What [c.JSON(code, obj)] is given: the status code and the value it
    serializes. *)
Record Response : Type := { code : Z; obj : SearchResponse }.

(** The function registered with [router.GET("/search", ...)] in [main];
    logging is left out. *)
Definition search_handler (client : meilisearch.Client) (config : Config)
    (c : Context) : IO Response :=
  let query := Query_ c "q" in
  if bool_decide (query = "") then
    io_ret {| code := StatusBadRequest;
              obj := {| Success := false; Results := [];
                        Error := "Query parameter 'q' is required";
                        Query := ""; Total := 0 |} |}
  else
    let limitStr := DefaultQuery c "limit" "20" in
    let '(limit, err) := strconv.Atoi limitStr in
    let limit := match err with Some _ => 20 | None => limit end in
    r ⇐ performSearch client (IndexName config) query limit ;;
    match r with
    | Fail err =>
        io_ret {| code := StatusInternalServerError;
                  obj := {| Success := false; Results := [];
                            Error := "Search failed: " +:+ error_text err;
                            Query := query; Total := 0 |} |}
    | Ok results =>
        io_ret {| code := StatusOK;
                  obj := {| Success := true; Results := results;
                            Error := ""; Query := query;
                            Total := Z.of_nat (length results) |} |}
    end.

(** ** Vocabulary for the properties *)

(** The document a hit yields when it survives the Marshal/Unmarshal round
    trip of the loop; [None] when either step fails and the hit is
    skipped. *)
Definition decode_hit (hit : Value) : option (gmap string Value) :=
  match json.Marshal hit with
  | Fail _ => None
  | Ok hitBytes =>
      match json.Unmarshal hitBytes with
      | Fail _ => None
      | Ok doc => Some doc
      end
  end.

Definition result_of (score : Z) (doc : gmap string Value) : SearchResult :=
  {| ID := getString doc "id";
     Title := getString doc "title";
     Content := getString doc "content";
     URL := getString doc "url";
     Score := score |}.

(** One result per hit that decodes, in hit order; the hit at index [i] of
    [n] hits is scored [n - i]. *)
Fixpoint results_from (n i : Z) (hits : list Value) : list SearchResult :=
  match hits with
  | [] => []
  | hit :: rest =>
      match decode_hit hit with
      | Some doc => result_of (n - i) doc :: results_from n (i + 1) rest
      | None => results_from n (i + 1) rest
      end
  end.

(** The scores alone, from which hits are kept. *)
Fixpoint scores_from (n i : Z) (kept : list bool) : list Z :=
  match kept with
  | [] => []
  | true :: rest => (n - i) :: scores_from n (i + 1) rest
  | false :: rest => scores_from n (i + 1) rest
  end.

(** "The result at position [i] has score [n - i]." *)
Definition score_by_position (n : Z) (results : list SearchResult) : Prop :=
  ∀ (i : nat) r, results !! i = Some r → Score r = n - Z.of_nat i.

(** The call [performSearch] places. *)
Definition search_call (indexName query : string) (limit : Z) : meilisearch.Call :=
  {| meilisearch.call_index := indexName;
     meilisearch.call_query := query;
     meilisearch.call_request :=
       {| meilisearch.Limit := limit;
          meilisearch.AttributesToHighlight := ["title"; "content"];
          meilisearch.HighlightPreTag := "<mark>";
          meilisearch.HighlightPostTag := "</mark>";
          meilisearch.AttributesToCrop := ["content"];
          meilisearch.CropLength := 200;
          meilisearch.ShowMatchesPosition := true;
          meilisearch.AttributesToRetrieve := ["*"] |} |}.

(** The value of a string of decimal digits read after [acc]; [None] when
    a character is not a digit. *)
Fixpoint decimal (acc : Z) (s : string) : option Z :=
  match s with
  | EmptyString => Some acc
  | String c rest =>
      if strconv.is_digit c
      then decimal (acc * 10 + (Z.of_nat (nat_of_ascii c) - 48)) rest
      else None
  end.

(** "Parseable as an integer": an optional sign, then one or more decimal
    digits; the integer written. *)
Definition integer_literal (s : string) : option Z :=
  match s with
  | EmptyString => None
  | String c rest =>
      let body := if Ascii.eqb c "+" || Ascii.eqb c "-" then rest else s in
      match body with
      | EmptyString => None
      | _ => (λ v, if Ascii.eqb c "-" then - v else v) <$> decimal 0 body
      end
  end.

(** An integer literal that fits a 64-bit [int]. *)
Definition int64_literal (s : string) : option Z :=
  match integer_literal s with
  | Some n => if (- 2 ^ 63 <=? n) && (n <=? 2 ^ 63 - 1) then Some n else None
  | None => None
  end.

(** The limit the handler settles on. *)
Definition limit_of (c : Context) : Z :=
  let '(limit, err) := strconv.Atoi (DefaultQuery c "limit" "20") in
  match err with Some _ => 20 | None => limit end.

(** How a configuration value relates to the environment: the variable's
    value when it is set and not empty, the default otherwise, and never
    the empty string. *)
Definition env_or_default (env : gmap string string) (key dflt value : string) : Prop :=
  (∀ v, env !! key = Some v → v ≠ "" → value = v)
  ∧ (env !! key = None ∨ env !! key = Some "" → value = dflt)
  ∧ value ≠ "".

(** ** Sample engines and requests *)

(** An engine that answers every call with the same hits. *)
Definition answering (hits : list Value) : meilisearch.Client :=
  λ _, Ok {| meilisearch.Hits := hits |}.

(** An engine that fails every call. *)
Definition failing (text : string) : meilisearch.Client :=
  λ _, Fail (errors_New text).

Definition page (ident name : string) : Value :=
  VMap (<["id" := VString ident]> (<["title" := VString name]> ∅)).

(** Three hits, the middle one not a document. *)
Definition mixed_hits : list Value :=
  [page "a" "Alpha"; VString "stray"; page "b" "Beta"].

Definition request (pairs : list (string * string)) : Context :=
  {| query_pairs := pairs |}.

End Backend.

(* ===================================================================== *)
(** * api/search.js *)
(* ===================================================================== *)

Module Api.

Local Open Scope Z_scope.

(** ** JavaScript values *)

(** The values a decoded JSON document is made of, plus [undefined]. *)
Inductive JsValue : Type :=
  | JUndefined
  | JNull
  | JBool (b : bool)
  | JNumber (f : PrimFloat.float)
  | JString (s : string)
  | JArray (l : list JsValue)
  | JObject (fields : gmap string JsValue).

(** ToBoolean. *)
Definition truthy (v : JsValue) : bool :=
  match v with
  | JUndefined | JNull => false
  | JBool b => b
  | JNumber f => negb (PrimFloat.is_zero f || PrimFloat.is_nan f)
  | JString s => negb (bool_decide (s = ""))
  | JArray _ | JObject _ => true
  end.

(** [a || b]. *)
Definition js_or (a b : JsValue) : JsValue := if truthy a then a else b.

(** [obj.key] on an object of own data properties. *)
Definition get (obj : gmap string JsValue) (key : string) : JsValue :=
  default JUndefined (obj !! key).

(** ** Strings: white space, [trim], [parseInt]

    A string is kept as the UTF-8 bytes of its text. *)

(** The one-character string made of a double quote. *)
Definition dquote : string := String (ascii_of_nat 34) EmptyString.

Definition utf8 (bytes : list nat) : string :=
  string_of_list_ascii (map ascii_of_nat bytes).

(** WhiteSpace and LineTerminator of ECMA-262: TAB, LF, VT, FF, CR, SP,
    U+00A0, U+1680, U+2000..U+200A, U+2028, U+2029, U+202F, U+205F, U+3000,
    U+FEFF. *)
Definition white_space : list string :=
  map utf8
    ([[9]; [10]; [11]; [12]; [13]; [32]; [194; 160]; [225; 154; 128]]
     ++ map (λ b, [226; 128; b]) [128; 129; 130; 131; 132; 133; 134; 135; 136; 137; 138]
     ++ [[226; 128; 168]; [226; 128; 169]; [226; 128; 175]; [226; 129; 159];
         [227; 128; 128]; [239; 187; 191]])%nat.

(** [strip_prefix p s] is what follows [p] when [s] starts with [p]. *)
Fixpoint strip_prefix (p s : string) : option string :=
  match p, s with
  | EmptyString, _ => Some s
  | String a p', String b s' => if Ascii.eqb a b then strip_prefix p' s' else None
  | String _ _, EmptyString => None
  end.

Fixpoint strip_any (ps : list string) (s : string) : option string :=
  match ps with
  | [] => None
  | p :: ps' =>
      match strip_prefix p s with
      | Some rest => Some rest
      | None => strip_any ps' s
      end
  end.

Fixpoint skip_white (ws : list string) (fuel : nat) (s : string) : string :=
  match fuel with
  | O => s
  | S fuel' =>
      match strip_any ws s with
      | Some rest => skip_white ws fuel' rest
      | None => s
      end
  end.

Definition trimStart (s : string) : string :=
  skip_white white_space (String.length s) s.

Definition trimEnd (s : string) : string :=
  let r := String.rev s in
  String.rev (skip_white (map String.rev white_space) (String.length r) r).

(** [String.prototype.trim]. *)
Definition trim (s : string) : string := trimEnd (trimStart s).

Definition digit_value (c : ascii) : option Z :=
  let n := Z.of_nat (nat_of_ascii c) in
  if (48 <=? n) && (n <=? 57) then Some (n - 48)
  else if (97 <=? n) && (n <=? 122) then Some (n - 97 + 10)
  else if (65 <=? n) && (n <=? 90) then Some (n - 65 + 10)
  else None.

(** The longest prefix of radix-[R] digits: its value, and whether it had a
    digit at all. *)
Fixpoint read_digits (R acc : Z) (seen : bool) (s : string) : option Z :=
  match s with
  | EmptyString => if seen then Some acc else None
  | String c rest =>
      match digit_value c with
      | Some d =>
          if d <? R then read_digits R (acc * R + d) true rest
          else if seen then Some acc else None
      | None => if seen then Some acc else None
      end
  end.

(** The Number for an integer [x]: the double nearest to it, ties to
    even, an infinity past the largest double; a zero takes the sign
    asked for. *)
Definition Number_of (negative : bool) (x : Z) : PrimFloat.float :=
  SF2Prim (binary_normalize prec emax x 0 negative).

(** [parseInt(string)] with no radix: NaN when no digit is read, -0 for a
    zero with a minus sign, and otherwise the Number for the integer
    read, correctly rounded as Node computes it. *)
Definition parseInt (inputString : string) : PrimFloat.float :=
  let str := trimStart inputString in
  let '(sign, str) :=
    match str with
    | String "-" rest => (-1, rest)
    | String "+" rest => (1, rest)
    | _ => (1, str)
    end in
  let '(R, str) :=
    match str with
    | String "0" (String "x" rest) | String "0" (String "X" rest) => (16, rest)
    | _ => (10, str)
    end in
  match read_digits R 0 false str with
  | None => PrimFloat.nan
  | Some mathInt => Number_of (sign <? 0) (sign * mathInt)
  end.

(** ** The request *)

(** A value of [req.query]: absent, one string, or several. *)
Inductive QueryValue : Type :=
  | QUndefined
  | QString (s : string)
  | QArray (l : list string).

Definition query_truthy (v : QueryValue) : bool :=
  match v with
  | QUndefined => false
  | QString s => negb (bool_decide (s = ""))
  | QArray _ => true
  end.

Fixpoint join (sep : string) (l : list string) : string :=
  match l with
  | [] => ""
  | [x] => x
  | x :: rest => x +:+ sep +:+ join sep rest
  end.

(** ToString of what [limit] is bound to: the default [20] when the
    parameter is [undefined]. *)
Definition limit_ToString (v : QueryValue) : string :=
  match v with
  | QUndefined => "20"
  | QString s => s
  | QArray l => join "," l
  end.

Record Request : Type := {
  method : string;
  query : gmap string QueryValue
}.

Definition param (req : Request) (key : string) : QueryValue :=
  default QUndefined (query req !! key).

(** ** The Meilisearch client *)

Record SearchParams : Type := {
  limit : PrimFloat.float;
  attributesToHighlight : list string;
  highlightPreTag : string;
  highlightPostTag : string;
  attributesToCrop : list string;
  cropLength : Z;
  showMatchesPosition : bool;
  attributesToRetrieve : list string
}.

(** The engine's answer; a hit is a document, an object. *)
Record SearchResults : Type := {
  hits : list (gmap string JsValue);
  processingTimeMs : JsValue
}.

Record Call : Type := {
  call_index : string;
  call_query : string;
  call_params : SearchParams
}.

(** A thrown [Error], seen through its [message]. *)
Record Exception : Type := Throw { message : string }.

(** The client with the engine behind it; a rejected promise is [inr]. *)
Definition Client : Type := Call → SearchResults + Exception.

(** ** Engine calls and exceptions as effects *)

Definition IO (A : Type) : Type := list Call → (A + Exception) * list Call.

Definition io_ret {A} (a : A) : IO A := λ log, (inl a, log).

Definition io_throw {A} (e : Exception) : IO A := λ log, (inr e, log).

Definition io_bind {A B} (m : IO A) (k : A → IO B) : IO B :=
  λ log,
    match m log with
    | (inl a, log') => k a log'
    | (inr e, log') => (inr e, log')
    end.

Notation "x ⇐ m ;; k" := (io_bind m (λ x, k))
  (at level 100, m at next level, right associativity).

(** [try { m } catch (error) { h error }]. *)
Definition try_catch {A} (m : IO A) (h : Exception → IO A) : IO A :=
  λ log,
    match m log with
    | (inl a, log') => (inl a, log')
    | (inr e, log') => h e log'
    end.

Definition index_search (client : Client) (uid q : string) (params : SearchParams)
    : IO SearchResults :=
  λ log,
    let call := {| call_index := uid; call_query := q; call_params := params |} in
    (client call, log ++ [call]).

Definition io_run {A} (m : IO A) : (A + Exception) * list Call := m [].

(** ** The handler *)

Record Result : Type := {
  id : JsValue;
  title : JsValue;
  content : JsValue;
  url : JsValue;
  score : Z
}.

(** The object given to [res.json]; a key the literal does not have is
    [None]. *)
Record Body : Type := {
  success : bool;
  error : option string;
  message_ : option string;
  results : option (list Result);
  query_ : option string;
  total : option Z;
  processingTimeMs_ : option JsValue
}.

(** [res.status(code).json(body)], or [res.status(code).end()] with no body. *)
Record Response : Type := { status : Z; body : option Body }.

Definition failure (msg : string) (detail : option string) : Body :=
  {| success := false; error := Some msg; message_ := detail;
     results := None; query_ := None; total := None;
     processingTimeMs_ := None |}.

(** [query.trim()]: a method of strings only. *)
Definition call_trim (v : QueryValue) : IO string :=
  match v with
  | QString s => io_ret (trim s)
  | QArray _ => io_throw (Throw "query.trim is not a function")
  | QUndefined => io_throw (Throw "Cannot read properties of undefined (reading 'trim')")
  end.

(** The string handed to [index.search]. *)
Definition query_text (v : QueryValue) : string :=
  match v with
  | QString s => s
  | _ => ""
  end.

Definition format_result (n : nat) (index : nat) (hit : gmap string JsValue) : Result :=
  {| id := js_or (get hit "id") (JString ("result-" +:+ pretty index));
     title := js_or (get hit "title") (JString "Untitled");
     content := js_or (get hit "content") (JString "");
     url := js_or (get hit "url") (JString "#");
     score := Z.of_nat n - Z.of_nat index |}.

(** The exported [handler]; the CORS headers and the console log are left
    out. *)
Definition handler (client : Client) (req : Request) : IO Response :=
  if bool_decide (method req = "OPTIONS") then
    io_ret {| status := 200; body := None |}
  else if bool_decide (method req ≠ "GET") then
    io_ret {| status := 405; body := Some (failure "Method not allowed" None) |}
  else
    try_catch
      (let query := param req "q" in
       let limit := param req "limit" in
       blank ⇐ (if negb (query_truthy query) then io_ret true
                 else (t ⇐ call_trim query ;; io_ret (bool_decide (t = "")))) ;;
       if (blank : bool) then
         io_ret {| status := 400;
                   body := Some (failure
                     ("Query parameter " +:+ dquote +:+ "q" +:+ dquote +:+ " is required")
                     None) |}
       else
         searchResults ⇐ index_search client "documents" (query_text query)
             {| limit := parseInt (limit_ToString limit);
                attributesToHighlight := ["title"; "content"];
                highlightPreTag := "<mark>";
                highlightPostTag := "</mark>";
                attributesToCrop := ["content"];
                cropLength := 200;
                showMatchesPosition := true;
                attributesToRetrieve := ["*"] |} ;;
         let results :=
           imap (format_result (length (hits searchResults))) (hits searchResults) in
         io_ret {| status := 200;
                   body := Some {| success := true; error := None; message_ := None;
                                   results := Some results;
                                   query_ := Some (query_text query);
                                   total := Some (Z.of_nat (length results));
                                   processingTimeMs_ :=
                                     Some (processingTimeMs searchResults) |} |})
      (λ error,
         io_ret {| status := 500;
                   body := Some (failure "Search failed" (Some (message error))) |}).

(** ** Vocabulary for the properties *)

(** The call the handler places for the query text [q]. *)
Definition search_call (q : string) (lim : PrimFloat.float) : Call :=
  {| call_index := "documents";
     call_query := q;
     call_params :=
       {| limit := lim;
          attributesToHighlight := ["title"; "content"];
          highlightPreTag := "<mark>";
          highlightPostTag := "</mark>";
          attributesToCrop := ["content"];
          cropLength := 200;
          showMatchesPosition := true;
          attributesToRetrieve := ["*"] |} |}.

Definition respond (code : Z) (b : Body) : Response + Exception :=
  inl {| status := code; body := Some b |}.

Definition q_required : string :=
  "Query parameter " +:+ dquote +:+ "q" +:+ dquote +:+ " is required".

(** The body of a successful search over the engine's answer. *)
Definition success_body (q : string) (answer : SearchResults) : Body :=
  let results := imap (format_result (length (hits answer))) (hits answer) in
  {| success := true; error := None; message_ := None;
     results := Some results; query_ := Some q;
     total := Some (Z.of_nat (length results));
     processingTimeMs_ := Some (processingTimeMs answer) |}.

(** "The result at position [i] has score [n - i]." *)
Definition score_by_position (n : Z) (rs : list Result) : Prop :=
  ∀ (i : nat) r, rs !! i = Some r → score r = n - Z.of_nat i.

(** The integer a Number is, when it is one; both zeros are 0. *)
Definition integer_of (f : PrimFloat.float) : option Z :=
  match Prim2SF f with
  | S754_zero _ => Some 0
  | S754_finite s m e =>
      let x := if s then Z.neg m else Z.pos m in
      if 0 <=? e then Some (x * 2 ^ e)
      else if x mod 2 ^ (- e) =? 0 then Some (x / 2 ^ (- e)) else None
  | S754_infinity _ | S754_nan => None
  end.

(** ** Sample engines and requests *)

Definition answering (docs : list (gmap string JsValue)) : Client :=
  λ _, inl {| hits := docs; processingTimeMs := JNumber 1 |}.

Definition failing (text : string) : Client := λ _, inr (Throw text).

Definition page (ident name : string) : gmap string JsValue :=
  <["id" := JString ident]> (<["title" := JString name]> ∅).

Definition get_request (params : list (string * QueryValue)) : Request :=
  {| method := "GET"; query := list_to_map params |}.

End Api.

(* ===================================================================== *)
(** * The crawl pipeline *)
(* ===================================================================== *)

(** [crawler/crawler.py], which the Dockerfile, the compose file and the
    workflow run, is not among the sources; this module follows sections 3
    and 4 of the specification. *)

Module Crawler.

Local Open Scope Z_scope.

(** ** Data model (section 3) *)

(** Modelled from the spec: the FrontierEntry of the absent crawler.py --
    a URL, its depth, and the URL it was discovered from. Two entries with
    the same normalized URL are the same entity. *)
Record FrontierEntry : Type := {
  url : string;
  depth : nat;
  discoveredFrom : option string
}.

(** Modelled from the spec: the FetchResult of the absent crawler.py. *)
Record FetchResult : Type := {
  fr_url : string;
  statusCode : Z;
  bodyBytes : string;
  contentType : string;
  fetchedAt : Z;
  fr_error : option string
}.

(** Modelled from the spec: the Document of the absent crawler.py. *)
Record Document : Type := {
  doc_id : string;
  doc_title : string;
  doc_content : string;
  doc_url : string;
  doc_contentHash : string
}.

(** Modelled from the spec: the configuration of the absent crawler.py
    (section 6) and its collaborators, the functions the components
    compute but whose algorithms the specification leaves open (URL and
    text normalization, hashing, robots decisions, fetching, HTML
    extraction, the engine's bulk upsert). *)
Record Setup : Type := {
  SEED_URLS : list string;
  MAX_PAGES : nat;
  maxDepth : nat;
  batchSize : nat;
  maxRetries : nat;
  CRAWL_DELAY : Z;
  normalize : string → string;
  host_of : string → string;
  normalize_text : string → string;
  hash : string → string;
  isAllowed : string → bool;
  fetch : string → Z → FetchResult;
  extract : FetchResult → option (Document * list string);
  upsert : nat → list Document → bool
}.

(** Modelled from the spec: the Frontier and the VisitedSet of the absent
    crawler.py. The VisitedSet lives with the pending entries: [offer] and
    [take] consult and update both. *)
Record Frontier : Type := {
  pending : list FrontierEntry;
  visited : gset string
}.

(** Modelled from the spec: the Index Sink of the absent crawler.py -- the
    buffered documents, the batches delivered, the batches dropped. *)
Record Sink : Type := {
  buffer : list Document;
  delivered : list (list Document);
  deliveryFailures : nat
}.

(** Modelled from the spec: the orchestrator states of section 4.7. *)
Inductive Phase : Type := Idle | Running | Draining | Done.

(** Modelled from the spec: the state of the orchestrator of the absent
    crawler.py. [fetched], [examined] and [indexed] are the logs behind
    the counts that [Done] reports: the URLs given to [fetch],
    the documents given to [shouldIndex] (with the time of the call), the
    documents given to [submit]. *)
Record Crawl : Type := {
  phase : Phase;
  frontier : Frontier;
  registry : gmap string Z;
  hostBudget : gmap string Z;
  sink : Sink;
  clock : Z;
  fetched : list string;
  examined : list (Z * Document);
  indexed : list Document;
  skipped : nat
}.

Section Pipeline.

Context (cfg : Setup).

(** ** URL Frontier (section 4.1) *)

Definition key (e : FrontierEntry) : string := normalize cfg (url e).

Definition empty_frontier : Frontier := {| pending := []; visited := ∅ |}.

(** Modelled from the spec: Frontier.offer of the absent crawler.py --
    inserts the entry unless its normalized URL is already present in the
    Frontier or the VisitedSet (no-op, not an error); depth above the
    configured maximum is rejected silently. *)
Definition offer (e : FrontierEntry) (F : Frontier) : Frontier :=
  if bool_decide (maxDepth cfg < depth e)%nat then F
  else if bool_decide (key e ∈ map key (pending F)) then F
  else if bool_decide (key e ∈ visited F) then F
  else {| pending := pending F ++ [e]; visited := visited F |}.

(** The earliest entry of least depth among [e :: l]. *)
Fixpoint shallowest (e : FrontierEntry) (l : list FrontierEntry) : FrontierEntry :=
  match l with
  | [] => e
  | x :: l' => shallowest (if (depth x <? depth e)%nat then x else e) l'
  end.

(** [l] without its first entry whose normalized URL is [k]. *)
Fixpoint remove_key (k : string) (l : list FrontierEntry) : list FrontierEntry :=
  match l with
  | [] => []
  | x :: l' => if bool_decide (key x = k) then l' else x :: remove_key k l'
  end.

(** Modelled from the spec: Frontier.take of the absent crawler.py --
    removes and returns one entry in breadth-first order (FIFO by depth,
    then discovery order); the dequeued URL enters the VisitedSet; [None]
    on an empty frontier signals "drained". *)
Definition take (F : Frontier) : option (FrontierEntry * Frontier) :=
  match pending F with
  | [] => None
  | e0 :: rest =>
      let e := shallowest e0 rest in
      Some (e, {| pending := remove_key (key e) (pending F);
                  visited := {[ key e ]} ∪ visited F |})
  end.

(** A client of the Frontier: any sequence of offers and takes. *)
Inductive FrontierOp : Type :=
  | Offer (e : FrontierEntry)
  | Take.

(** Runs the operations in order; returns the final frontier and the
    entries [take] returned, oldest first. *)
Fixpoint run_ops (ops : list FrontierOp) (F : Frontier)
    : Frontier * list FrontierEntry :=
  match ops with
  | [] => (F, [])
  | Offer e :: ops' => run_ops ops' (offer e F)
  | Take :: ops' =>
      match take F with
      | None => run_ops ops' F
      | Some (e, F') => let '(F'', out) := run_ops ops' F' in (F'', e :: out)
      end
  end.

(** ** Politeness Controller (section 4.2) *)

(** Modelled from the spec: PolitenessController.permit of the absent
    crawler.py -- waits until CRAWL_DELAY has passed since the last
    permitted request to the host, then records the new timestamp.
    Returns the time at which the request is permitted. *)
Definition permit (host : string) (now : Z) (budget : gmap string Z)
    : Z * gmap string Z :=
  let t := match budget !! host with
           | Some lastRequestAt => Z.max now (lastRequestAt + CRAWL_DELAY cfg)
           | None => now
           end in
  (t, <[host := t]> budget).

(** ** Deduplicator (section 4.5) *)

Definition contentHash (doc : Document) : string :=
  hash cfg (normalize_text cfg (doc_content doc)).

(** Modelled from the spec: Deduplicator.shouldIndex of the absent
    crawler.py -- computes the contentHash of the normalized content text;
    returns false if that hash is already in the ContentFingerprint
    registry, otherwise inserts the hash with the current timestamp and
    returns true. *)
Definition shouldIndex (now : Z) (doc : Document) (reg : gmap string Z)
    : bool * gmap string Z :=
  let h := contentHash doc in
  match reg !! h with
  | Some _ => (false, reg)
  | None => (true, <[h := now]> reg)
  end.

(** [shouldIndex] on a stream of documents, each with the time it arrives:
    the verdicts in order and the registry at the end. *)
Fixpoint shouldIndex_each (arrivals : list (Z * Document)) (reg : gmap string Z)
    : list bool * gmap string Z :=
  match arrivals with
  | [] => ([], reg)
  | (now, doc) :: rest =>
      let '(b, reg') := shouldIndex now doc reg in
      let '(bs, reg'') := shouldIndex_each rest reg' in
      (b :: bs, reg'')
  end.

(** The documents of a stream that [shouldIndex] lets through. *)
Fixpoint passed_docs (arrivals : list (Z * Document)) (reg : gmap string Z)
    : list Document :=
  match arrivals with
  | [] => []
  | (now, doc) :: rest =>
      let '(b, reg') := shouldIndex now doc reg in
      if b then doc :: passed_docs rest reg' else passed_docs rest reg'
  end.

(** ** Index Sink (section 4.6) *)

Definition empty_sink : Sink :=
  {| buffer := []; delivered := []; deliveryFailures := 0 |}.

(** One bulk upsert with its retries: attempt numbers count up from
    [attempt]; [retries] further attempts are left. *)
Fixpoint try_upsert (retries attempt : nat) (batch : list Document) : bool :=
  if upsert cfg attempt batch then true
  else match retries with
       | O => false
       | S retries' => try_upsert retries' (S attempt) batch
       end.

(** Modelled from the spec: IndexSink.flush of the absent crawler.py --
    forces delivery of any partial batch; a batch whose retries are
    exhausted is dropped and the failure counted. *)
Definition flush (S : Sink) : Sink :=
  match buffer S with
  | [] => S
  | batch =>
      if try_upsert (maxRetries cfg) 0 batch then
        {| buffer := []; delivered := delivered S ++ [batch];
           deliveryFailures := deliveryFailures S |}
      else
        {| buffer := []; delivered := delivered S;
           deliveryFailures := Datatypes.S (deliveryFailures S) |}
  end.

(** Modelled from the spec: IndexSink.submit of the absent crawler.py --
    buffers documents up to the batch size, then performs one bulk
    upsert. *)
Definition submit (doc : Document) (S : Sink) : Sink :=
  let S' := {| buffer := buffer S ++ [doc]; delivered := delivered S;
               deliveryFailures := deliveryFailures S |} in
  if bool_decide (batchSize cfg ≤ length (buffer S'))%nat then flush S' else S'.

(** ** Crawl Orchestrator (section 4.7) *)

Definition start (reg0 : gmap string Z) (now : Z) : Crawl :=
  {| phase := Idle; frontier := empty_frontier; registry := reg0;
     hostBudget := ∅; sink := empty_sink; clock := now;
     fetched := []; examined := []; indexed := []; skipped := 0 |}.

Definition seed (u : string) : FrontierEntry :=
  {| url := u; depth := 0; discoveredFrom := None |}.

Definition link_from (e : FrontierEntry) (u : string) : FrontierEntry :=
  {| url := u; depth := Datatypes.S (depth e); discoveredFrom := Some (url e) |}.

Definition offer_all (es : list FrontierEntry) (F : Frontier) : Frontier :=
  foldl (λ F e, offer e F) F es.

(** The disposition "discard the entry and continue". *)
Definition skip (s : Crawl) (F : Frontier) (budget : gmap string Z) (now : Z)
    (fetches : list string) : Crawl :=
  {| phase := Running; frontier := F; registry := registry s;
     hostBudget := budget; sink := sink s; clock := now;
     fetched := fetches; examined := examined s; indexed := indexed s;
     skipped := Datatypes.S (skipped s) |}.

Definition enter (p : Phase) (s : Crawl) (F : Frontier) (S : Sink) : Crawl :=
  {| phase := p; frontier := F; registry := registry s;
     hostBudget := hostBudget s; sink := S; clock := clock s;
     fetched := fetched s; examined := examined s; indexed := indexed s;
     skipped := skipped s |}.

(** Modelled from the spec: the orchestrator loop of the absent
    crawler.py, one transition of the state machine Idle, Running,
    Draining, Done. Running: take; if empty, Draining. For the taken
    entry: the page budget (Draining if reached); permit and isAllowed
    (if disallowed, discard); fetch (on error, discard); extract;
    shouldIndex; if true, submit and offer each discovered link at
    depth + 1. Draining: flush. Done: terminal. *)
Definition step (s : Crawl) : Crawl :=
  match phase s with
  | Idle =>
      enter Running s (offer_all (map seed (SEED_URLS cfg)) (frontier s)) (sink s)
  | Running =>
      match take (frontier s) with
      | None => enter Draining s (frontier s) (sink s)
      | Some (e, F) =>
          if bool_decide (MAX_PAGES cfg ≤ length (fetched s))%nat then
            enter Draining s F (sink s)
          else
            let '(now, budget) := permit (host_of cfg (url e)) (clock s) (hostBudget s) in
            if negb (isAllowed cfg (url e)) then skip s F budget now (fetched s)
            else
              let r := fetch cfg (url e) now in
              let fetches := fetched s ++ [url e] in
              match fr_error r with
              | Some _ => skip s F budget now fetches
              | None =>
                  match extract cfg r with
                  | None => skip s F budget now fetches
                  | Some (doc, links) =>
                      let '(fresh, reg) := shouldIndex now doc (registry s) in
                      if fresh then
                        {| phase := Running;
                           frontier := offer_all (map (link_from e) links) F;
                           registry := reg; hostBudget := budget;
                           sink := submit doc (sink s); clock := now;
                           fetched := fetches;
                           examined := examined s ++ [(now, doc)];
                           indexed := indexed s ++ [doc];
                           skipped := skipped s |}
                      else
                        {| phase := Running; frontier := F;
                           registry := reg; hostBudget := budget;
                           sink := sink s; clock := now;
                           fetched := fetches;
                           examined := examined s ++ [(now, doc)];
                           indexed := indexed s;
                           skipped := Datatypes.S (skipped s) |}
                  end
              end
      end
  | Draining => enter Done s (frontier s) (flush (sink s))
  | Done => s
  end.

(** The state after [n] transitions of a run that starts with the
    registry [reg0] at time [now]. *)
Definition run (n : nat) (reg0 : gmap string Z) (now : Z) : Crawl :=
  Nat.iter n step (start reg0 now).

(** ** Vocabulary for the properties *)

(** The pending entries have pairwise distinct normalized URLs, none of
    them visited. *)
Definition frontier_ok (F : Frontier) : Prop :=
  NoDup (map key (pending F)) ∧ ∀ e, e ∈ pending F → key e ∉ visited F.

(** The documents of a stream before position [j] all hash differently
    from [h]. *)
Definition first_with_hash (h : string) (arrivals : list (Z * Document)) (j : nat)
    : Prop :=
  ∀ (i : nat) t d, (i < j)%nat → arrivals !! i = Some (t, d) → contentHash d ≠ h.

(** The documents of a stream whose verdict is true. *)
Definition kept (verdicts : list bool) (arrivals : list (Z * Document))
    : list Document :=
  omap (λ '(b, (_, doc)), if (b : bool) then Some doc else None)
       (zip verdicts arrivals).

End Pipeline.

(** ** A sample run *)

Definition text_page (u body : string) : Document :=
  {| doc_id := u; doc_title := u; doc_content := body; doc_url := u;
     doc_contentHash := body |}.

(** Three pages: the seed links to two pages with the same text. *)
Definition sample_web (u : string) : Document * list string :=
  if bool_decide (u = "http://a.test/") then
    (text_page u "home", ["http://a.test/b"; "http://a.test/c"; "http://a.test/"])
  else (text_page u "same text", ["http://a.test/"]).

(** Three arrivals, the first and the last with the same text. *)
Definition sample_arrivals : list (Z * Document) :=
  [(0, text_page "http://a.test/1" "x");
   (1, text_page "http://a.test/2" "y");
   (2, text_page "http://a.test/3" "x")].

Definition sample_setup : Setup :=
  {| SEED_URLS := ["http://a.test/"];
     MAX_PAGES := 2;
     maxDepth := 3;
     batchSize := 10;
     maxRetries := 2;
     CRAWL_DELAY := 1;
     normalize := id;
     host_of := λ _, "a.test";
     normalize_text := id;
     hash := id;
     isAllowed := λ _, true;
     fetch := λ u now,
       {| fr_url := u; statusCode := 200; bodyBytes := u;
          contentType := "text/html"; fetchedAt := now; fr_error := None |};
     extract := λ r, Some (sample_web (fr_url r));
     upsert := λ _ _, true |}.

End Crawler.

(* ===================================================================== *)
(** * backend/main.go: the other routes and the start of the server *)
(* ===================================================================== *)

Module Server.

Local Open Scope Z_scope.

(** The values [main] puts in a [gin.H]. *)
Inductive HValue : Type :=
  | HString (s : string)
  | HInt (n : Z)
  | HBool (b : bool).

(** Of [meilisearch.StatsIndex] the handler reads two fields. *)
Record StatsIndex : Type := {
  NumberOfDocuments : Z;
  IsIndexing : bool
}.

(** [client.Index(uid).GetStats()], by index uid. *)
Definition StatsClient : Type := string → Backend.result StatsIndex.

(** What [c.JSON(code, gin.H{...})] is given. *)
Record Reply : Type := { reply_code : Z; reply_body : gmap string HValue }.

(** The function registered with [router.GET("/health", ...)]. *)
Definition health_handler (config : Backend.Config) : Reply :=
  {| reply_code := Backend.StatusOK;
     reply_body :=
       <["status" := HString "healthy"]>
       (<["service" := HString "search-engine-backend"]>
       (<["meilisearch" := HString (Backend.MeilisearchURL config)]> ∅)) |}.

(** The function registered with [router.GET("/stats", ...)]. *)
Definition stats_handler (getStats : StatsClient) (config : Backend.Config) : Reply :=
  match getStats (Backend.IndexName config) with
  | Backend.Fail err =>
      {| reply_code := Backend.StatusInternalServerError;
         reply_body :=
           <["error" := HString ("Failed to get stats: " +:+ Backend.error_text err)]> ∅ |}
  | Backend.Ok stats =>
      {| reply_code := Backend.StatusOK;
         reply_body :=
           <["index_name" := HString (Backend.IndexName config)]>
           (<["document_count" := HInt (NumberOfDocuments stats)]>
           (<["is_indexing" := HBool (IsIndexing stats)]> ∅)) |}
  end.

(** [meilisearch.NewClient(ClientConfig{Host, APIKey})]: the client for
    the engine at a host, with a key. *)
Definition NewClient : Type := string → string → Backend.meilisearch.Client.

(** The function registered with [router.GET("/search", ...)]: the search
    handler over the client [main] builds from the configuration. *)
Definition search_route (newClient : NewClient) (config : Backend.Config)
    (c : Backend.Context) : Backend.IO Backend.Response :=
  let client :=
    newClient (Backend.MeilisearchURL config) (Backend.MeilisearchKey config) in
  Backend.search_handler client config c.

(** What [main] does that can be seen from outside: the lines it logs and
    the address it hands to [router.Run]. *)
Inductive Event : Type :=
  | Log (line : string)
  | Run (addr : string).

Definition is_run (e : Event) : bool :=
  match e with Run _ => true | Log _ => false end.

(** [testMeilisearchConnection]: the error of [client.Health()], if any. *)
Definition testMeilisearchConnection (health : option Backend.error)
    : option Backend.error := health.

(** [main], from the environment and the outcome of [client.Health()];
    the routes are the handlers above and [Backend.search_handler]. *)
Definition main (env : gmap string string) (health : option Backend.error)
    : list Event :=
  let config := Backend.loadConfig env in
  [ match testMeilisearchConnection health with
    | Some err =>
        Log ("Warning: Could not connect to Meilisearch: " +:+ Backend.error_text err)
    | None => Log "Successfully connected to Meilisearch"
    end;
    Log ("Starting server on port " +:+ Backend.Port config);
    Run (":" +:+ Backend.Port config) ].

End Server.

(* ===================================================================== *)
(** * The JSON body of the Go server's search response *)
(* ===================================================================== *)

Module Wire.

Local Open Scope Z_scope.

(** A JSON document, as a reader of the body parses it. The numbers the
    search response holds ([score], [total]) are integers; an object keeps
    its members in the order they are written; a string is the UTF-8 text
    read back. *)
Inductive Json : Type :=
  | Null
  | Bool (b : bool)
  | Number (n : Z)
  | Str (s : string)
  | Arr (items : list Json)
  | Obj (members : list (string * Json)).

(** *** Strings: what [encoding/json] makes of bytes that are not UTF-8 *)

Definition in_range (lo hi : N) (c : ascii) : bool :=
  ((lo <=? N_of_ascii c) && (N_of_ascii c <=? hi))%N.

(** For a first byte of [utf8.DecodeRune]: the length of the sequence it
    starts and the range its second byte must lie in; [None] for a byte
    that starts none (0x80..0xC1 and 0xF5..0xFF). *)
Definition first (c : ascii) : option (nat * N * N) :=
  let x := N_of_ascii c in
  (if x <? 128 then Some (1%nat, 0, 0)
   else if x <? 194 then None
   else if x <? 224 then Some (2%nat, 128, 191)
   else if x =? 224 then Some (3%nat, 160, 191)
   else if x <? 237 then Some (3%nat, 128, 191)
   else if x =? 237 then Some (3%nat, 128, 159)
   else if x <? 240 then Some (3%nat, 128, 191)
   else if x =? 240 then Some (4%nat, 144, 191)
   else if x <? 244 then Some (4%nat, 128, 191)
   else if x =? 244 then Some (4%nat, 128, 143)
   else None)%N.

(** The size [utf8.DecodeRuneInString] reports at the head of [s], with 0
    standing for (RuneError, 1): the bytes there are no valid sequence. *)
Definition rune_size (s : string) : nat :=
  match s with
  | EmptyString => 0
  | String c0 rest =>
      match first c0, rest with
      | Some (1%nat, _, _), _ => 1
      | Some (2%nat, lo, hi), String c1 _ =>
          if in_range lo hi c1 then 2 else 0
      | Some (3%nat, lo, hi), String c1 (String c2 _) =>
          if in_range lo hi c1 && in_range 128 191 c2 then 3 else 0
      | Some (4%nat, lo, hi), String c1 (String c2 (String c3 _)) =>
          if in_range lo hi c1 && in_range 128 191 c2 && in_range 128 191 c3
          then 4 else 0
      | _, _ => 0
      end
  end%nat.

(** U+FFFD, the replacement character. *)
Definition replacement : string :=
  String (ascii_of_nat 239) (String (ascii_of_nat 191) (String (ascii_of_nat 189) "")).

(** A Go string as it is read back from the JSON text the encoder writes:
    valid sequences are kept, and every byte that is part of none is
    written as U+FFFD, one for each such byte. *)
Fixpoint coerce_utf8 (s : string) : string :=
  match s with
  | EmptyString => EmptyString
  | String c0 r0 =>
      match rune_size s, r0 with
      | 1%nat, _ => String c0 (coerce_utf8 r0)
      | 2%nat, String c1 r1 => String c0 (String c1 (coerce_utf8 r1))
      | 3%nat, String c1 (String c2 r2) =>
          String c0 (String c1 (String c2 (coerce_utf8 r2)))
      | 4%nat, String c1 (String c2 (String c3 r3)) =>
          String c0 (String c1 (String c2 (String c3 (coerce_utf8 r3))))
      | _, _ => replacement +:+ coerce_utf8 r0
      end
  end.

(** A struct field tagged omitempty is left out when [empty] holds. *)
Definition omitempty (empty : bool) (key : string) (v : Json)
    : list (string * Json) :=
  if empty then [] else [(key, v)].

(** [SearchResult] as [encoding/json] writes it: every field, in
    declaration order. *)
Definition encode_result (r : Backend.SearchResult) : Json :=
  Obj [("id", Str (coerce_utf8 (Backend.ID r)));
       ("title", Str (coerce_utf8 (Backend.Title r)));
       ("content", Str (coerce_utf8 (Backend.Content r)));
       ("url", Str (coerce_utf8 (Backend.URL r)));
       ("score", Number (Backend.Score r))].

(** [SearchResponse] as [c.JSON] writes it: [success] always, the other
    fields unless empty. *)
Definition encode_response (r : Backend.SearchResponse) : Json :=
  Obj ([("success", Bool (Backend.Success r))]
       ++ omitempty (bool_decide (Backend.Results r = [])) "results"
            (Arr (map encode_result (Backend.Results r)))
       ++ omitempty (bool_decide (Backend.Error r = "")) "error"
            (Str (coerce_utf8 (Backend.Error r)))
       ++ omitempty (bool_decide (Backend.Query r = "")) "query"
            (Str (coerce_utf8 (Backend.Query r)))
       ++ omitempty (bool_decide (Backend.Total r = 0)) "total"
            (Number (Backend.Total r))).

(** [data.key] in JavaScript, [None] being [undefined]: a member of an
    object; nothing on arrays and primitives for the keys used here. *)
Fixpoint member (key : string) (members : list (string * Json)) : option Json :=
  match members with
  | [] => None
  | (k, v) :: rest => if bool_decide (k = key) then Some v else member key rest
  end.

Definition prop (data : Json) (key : string) : option Json :=
  match data with
  | Obj members => member key members
  | _ => None
  end.

(** ToBoolean. *)
Definition truthy (v : option Json) : bool :=
  match v with
  | None | Some Null => false
  | Some (Bool b) => b
  | Some (Number n) => negb (n =? 0)
  | Some (Str s) => negb (bool_decide (s = ""))
  | Some (Arr _) | Some (Obj _) => true
  end.

(** [v || d]. *)
Definition or_else (v : option Json) (d : Json) : Json :=
  match v with
  | Some x => if truthy v then x else d
  | None => d
  end.

End Wire.

(* ===================================================================== *)
(** * api/search.js: the client *)
(* ===================================================================== *)

Module ApiClient.

(** [process.env.NAME || fallback]: the fallback when the variable is
    unset or the empty string. *)
Definition env_or (env : gmap string string) (name fallback : string) : string :=
  match env !! name with
  | Some v => if bool_decide (v = "") then fallback else v
  | None => fallback
  end.

Record Options : Type := { host : string; apiKey : string }.

(** The argument of [new MeiliSearch(...)]. *)
Definition options (env : gmap string string) : Options :=
  {| host := env_or env "MEILISEARCH_URL"
               "https://your-meilisearch-instance.meilisearch.io";
     apiKey := env_or env "MEILISEARCH_KEY" "your-api-key" |}.

End ApiClient.

(* ===================================================================== *)
(** * The React front end: App.tsx, SearchBar.tsx, SearchResults.tsx *)
(* ===================================================================== *)

Module Frontend.

(** ** SearchResults.tsx *)

(** The text shown for [result.content], a string seen as its UTF-16 code
    units: [content.length > 300 ? content.substring(0, 300) + '...' :
    content]. *)
Definition snippet (content : list N) : list N :=
  if (300 <? length content)%nat
  then take 300 content ++ [46; 46; 46]%N
  else content.

(** ** SearchBar.tsx *)

(** [handleSubmit]: what is passed to [onSearch], if anything. *)
Definition handleSubmit (query : string) : option string :=
  if bool_decide (Api.trim query = "") then None else Some (Api.trim query).

(** ** App.tsx *)

Section App.

(** [encodeURIComponent], a function of the browser. *)
Context (encodeURIComponent : string → string).

(** The three state variables of [App]; [results] holds whatever was
    passed to [setResults]. *)
Record AppState : Type := {
  results : Wire.Json;
  loading : bool;
  query : string
}.

(** What [await fetch(url)] followed by [await response.json()] comes to:
    an exception (the request failed, or the body is not JSON), or the
    parsed body. *)
Inductive Fetched : Type :=
  | Threw
  | Parsed (data : Wire.Json).

(** The value given to [setResults] once the body is parsed;
    [data.success] throws on [null], which the [catch] turns into []. *)
Definition results_of (data : Wire.Json) : Wire.Json :=
  match data with
  | Wire.Null => Wire.Arr []
  | _ =>
      if Wire.truthy (Wire.prop data "success")
      then Wire.or_else (Wire.prop data "results") (Wire.Arr [])
      else Wire.Arr []
  end.

(** One call of [handleSearch]: the state while the request is in flight
    (if a request is made), the state at the end, the URLs fetched. *)
Record Outcome : Type := {
  in_flight : option AppState;
  final : AppState;
  requests : list string
}.

Definition handleSearch (fetch : string → Fetched) (searchQuery : string)
    (st : AppState) : Outcome :=
  if bool_decide (Api.trim searchQuery = "") then
    {| in_flight := None;
       final := {| results := Wire.Arr []; loading := loading st; query := query st |};
       requests := [] |}
  else
    let waiting := {| results := results st; loading := true; query := searchQuery |} in
    let url := "/api/search?q=" +:+ encodeURIComponent searchQuery in
    let shown :=
      match fetch url with
      | Threw => Wire.Arr []
      | Parsed data => results_of data
      end in
    {| in_flight := Some waiting;
       final := {| results := shown; loading := false; query := searchQuery |};
       requests := [url] |}.

(** A submission of the search form: [SearchBar] calls the [onSearch] it
    was given, which is [handleSearch]. *)
Definition submit (fetch : string → Fetched) (input : string) (st : AppState)
    : Outcome :=
  match handleSubmit input with
  | Some q => handleSearch fetch q st
  | None => {| in_flight := None; final := st; requests := [] |}
  end.

End App.

End Frontend.

(* ===================================================================== *)
(** * Properties of the query proxy (Go) *)
(* ===================================================================== *)

Section BackendFacts.

Import Backend.
Local Open Scope Z_scope.

(** *** getEnv and loadConfig *)

Lemma getEnv_unset env key dflt :
  env !! key = None ∨ env !! key = Some "" → getEnv env key dflt = dflt.
Proof.
  unfold getEnv, os_Getenv. by intros [-> | ->].
Qed.

Lemma getEnv_set env key dflt v :
  env !! key = Some v → v ≠ "" → getEnv env key dflt = v.
Proof.
  unfold getEnv, os_Getenv. intros -> Hv. simpl. case_bool_decide; congruence.
Qed.

Lemma getEnv_nonempty env key dflt : dflt ≠ "" → getEnv env key dflt ≠ "".
Proof.
  intros Hd. unfold getEnv. case_bool_decide; done.
Qed.

Lemma getEnv_env_or_default env key dflt :
  dflt ≠ "" → env_or_default env key dflt (getEnv env key dflt).
Proof.
  intros Hd. repeat split.
  - intros v Hv Hne. by apply getEnv_set.
  - apply getEnv_unset.
  - by apply getEnv_nonempty.
Qed.

(** C10. Each of the four configuration values is the environment
    variable's value when that is set and non-empty, and the built-in
    default when the variable is unset or empty; no configuration value is
    ever the empty string. *)
Theorem loadConfig_env_or_default (env : gmap string string) :
  env_or_default env "MEILISEARCH_URL" "http://meilisearch:7700"
    (MeilisearchURL (loadConfig env))
  ∧ env_or_default env "MEILISEARCH_KEY" "masterKey123"
      (MeilisearchKey (loadConfig env))
  ∧ env_or_default env "PORT" "8080" (Port (loadConfig env))
  ∧ env_or_default env "INDEX_NAME" "documents" (IndexName (loadConfig env)).
Proof.
  unfold loadConfig; simpl.
  split; [|split; [|split]]; by apply getEnv_env_or_default.
Qed.

(** *** performSearch *)

Lemma range_hits_results n i hits acc :
  range_hits n i hits acc = acc ++ results_from n i hits.
Proof.
  revert i acc. induction hits as [|hit rest IH]; intros i acc; simpl.
  - by rewrite app_nil_r.
  - unfold decode_hit. destruct (json.Marshal hit) as [b|e]; [|apply IH].
    destruct (json.Unmarshal b) as [doc|e]; [|apply IH].
    rewrite IH. by rewrite <- app_assoc.
Qed.

Lemma performSearch_run client indexName query limit log :
  performSearch client indexName query limit log =
    (match client (search_call indexName query limit) with
     | Fail err => Fail err
     | Ok res =>
         Ok (results_from (Z.of_nat (length (meilisearch.Hits res))) 0
               (meilisearch.Hits res))
     end,
     log ++ [search_call indexName query limit]).
Proof.
  unfold performSearch, io_bind, index_Search, search_call.
  destruct (client _) as [res|err]; simpl; [|done].
  by rewrite range_hits_results.
Qed.

Lemma search_handler_run client config c :
  io_run (search_handler client config c) =
    let query := Query_ c "q" in
    if bool_decide (query = "") then
      ({| code := 400;
          obj := {| Success := false; Results := [];
                    Error := "Query parameter 'q' is required";
                    Query := ""; Total := 0 |} |}, [])
    else
      let call := search_call (IndexName config) query (limit_of c) in
      (match client call with
       | Fail err =>
           {| code := 500;
              obj := {| Success := false; Results := [];
                        Error := "Search failed: " +:+ error_text err;
                        Query := query; Total := 0 |} |}
       | Ok res =>
           let results :=
             results_from (Z.of_nat (length (meilisearch.Hits res))) 0
               (meilisearch.Hits res) in
           {| code := 200;
              obj := {| Success := true; Results := results; Error := "";
                        Query := query;
                        Total := Z.of_nat (length results) |} |}
       end, [call]).
Proof.
  unfold io_run, search_handler, limit_of. cbv zeta.
  case_bool_decide; [done|].
  destruct (strconv.Atoi _) as [limit err].
  unfold io_bind. rewrite performSearch_run. simpl.
  by destruct (client _).
Qed.

(** *** strconv.Atoi *)

Lemma parse_uint_loop_nonneg n s m :
  0 ≤ n → strconv.parse_uint_loop n s = (m, None) → 0 ≤ m.
Proof.
  revert n. induction s as [|ch rest IH]; intros n Hn; simpl.
  - by intros [= <-].
  - destruct (strconv.is_digit ch) eqn:Hd; simpl; [|done].
    destruct (strconv.cutoff10 <=? n); [done|].
    destruct (strconv.maxUint64 <? _); [done|].
    apply IH. unfold strconv.is_digit in Hd. lia.
Qed.

Lemma ParseUint_nonneg s m : strconv.ParseUint s = (m, None) → 0 ≤ m.
Proof.
  destruct s as [|ch rest]; [done|]. unfold strconv.ParseUint.
  by apply parse_uint_loop_nonneg.
Qed.

Lemma parse_uint_loop_overflow n s m :
  strconv.parse_uint_loop n s = (m, Some strconv.ErrRange) → m = strconv.maxUint64.
Proof.
  revert n. induction s as [|ch rest IH]; intros n; simpl; [done|].
  destruct (strconv.is_digit ch); simpl; [|done].
  destruct (strconv.cutoff10 <=? n); [by intros [= <-]|].
  destruct (strconv.maxUint64 <? _); [by intros [= <-]|].
  apply IH.
Qed.

Lemma ParseUint_overflow s m :
  strconv.ParseUint s = (m, Some strconv.ErrRange) → m = strconv.maxUint64.
Proof.
  destruct s as [|ch rest]; [done|]. unfold strconv.ParseUint.
  apply parse_uint_loop_overflow.
Qed.

Lemma maxUint64_value : strconv.maxUint64 = 18446744073709551615.
Proof. reflexivity. Qed.

Lemma cutoff10_value : strconv.cutoff10 = 1844674407370955162.
Proof. reflexivity. Qed.

Lemma decimal_lower acc s v : 0 ≤ acc → decimal acc s = Some v → acc ≤ v.
Proof.
  revert acc. induction s as [|ch rest IH]; intros acc Hacc; simpl.
  - intros [= <-]. lia.
  - destruct (strconv.is_digit ch) eqn:Hd; [|done].
    intros Hv. apply IH in Hv; unfold strconv.is_digit in Hd; lia.
Qed.

(** The digit loop against the value written: it returns that value when
    it fits 64 bits, a range error when it does not, and some error when
    the string has a character that is not a digit. *)
Lemma parse_uint_loop_decimal n s :
  0 ≤ n ≤ strconv.maxUint64 →
  match decimal n s with
  | Some v =>
      if v <=? strconv.maxUint64 then strconv.parse_uint_loop n s = (v, None)
      else (strconv.parse_uint_loop n s).2 = Some strconv.ErrRange
  | None => (strconv.parse_uint_loop n s).2 ≠ None
  end.
Proof.
  pose proof cutoff10_value as Hc10. pose proof maxUint64_value as Hm64.
  revert n. induction s as [|ch rest IH]; intros n Hn; simpl.
  - by rewrite (proj2 (Z.leb_le _ _)) by lia.
  - destruct (strconv.is_digit ch) eqn:Hd; simpl; [|done].
    assert (0 ≤ Z.of_nat (nat_of_ascii ch) - 48 ≤ 9) as Hdigit
      by (unfold strconv.is_digit in Hd; lia).
    set (n1 := n * 10 + (Z.of_nat (nat_of_ascii ch) - 48)) in *.
    assert (strconv.maxUint64 < n1 →
            match decimal n1 rest with
            | Some v =>
                if v <=? strconv.maxUint64 then
                  (strconv.maxUint64, Some strconv.ErrRange) = (v, None)
                else Some strconv.ErrRange = Some strconv.ErrRange
            | None => Some strconv.ErrRange ≠ None
            end) as Hover.
    { intros Hbig. destruct (decimal n1 rest) as [v|] eqn:Hv; [|done].
      apply decimal_lower in Hv; [|lia].
      by rewrite (proj2 (Z.leb_gt _ _)) by lia. }
    destruct (strconv.cutoff10 <=? n) eqn:Hcut.
    { apply Hover. lia. }
    destruct (strconv.maxUint64 <? n1) eqn:Hmax.
    { apply Hover. lia. }
    apply IH. lia.
Qed.

(** [Atoi] succeeds exactly on the integer literals that fit 64 bits, and
    returns the integer written. *)
Lemma Atoi_integer_literal s n :
  strconv.Atoi s = (n, None) ↔
    integer_literal s = Some n ∧ - 2 ^ 63 ≤ n ≤ 2 ^ 63 - 1.
Proof.
  unfold strconv.Atoi, strconv.ParseInt, integer_literal.
  destruct s as [|ch rest]; [by split; [|intros [? _]]|].
  set (body := if Ascii.eqb ch "+" || Ascii.eqb ch "-" then rest else String ch rest).
  destruct body as [|c0 body0] eqn:Hbody.
  { split; [done|]. by intros [? _]. }
  change (strconv.ParseUint (String c0 body0))
    with (strconv.parse_uint_loop 0 (String c0 body0)).
  cbv beta match.
  pose proof (parse_uint_loop_decimal 0 (String c0 body0)) as Hloop.
  pose proof (decimal_lower 0 (String c0 body0)) as Hlow.
  pose proof maxUint64_value as Hm64.
  clear Hbody. revert Hloop Hlow. generalize (String c0 body0). intros w Hloop Hlow.
  specialize (Hloop ltac:(lia)).
  destruct (decimal 0 w) as [v|]; simpl.
  - specialize (Hlow v ltac:(lia) eq_refl).
    destruct (v <=? strconv.maxUint64) eqn:Hfit.
    + rewrite Hloop.
      destruct (Ascii.eqb ch "-"); simpl.
      * destruct (2 ^ 63 <? v) eqn:Hc.
        -- split; [done|]. intros [[= <-] ?]. lia.
        -- split; [intros [= <-]; split; [done|lia]|]. by intros [[= <-] _].
      * destruct (2 ^ 63 <=? v) eqn:Hc.
        -- split; [done|]. intros [[= <-] ?]. lia.
        -- split; [intros [= <-]; split; [done|lia]|]. by intros [[= <-] _].
    + destruct (strconv.parse_uint_loop 0 w) as [un err] eqn:Hun.
      simpl in Hloop. subst err.
      apply parse_uint_loop_overflow in Hun as ->.
      rewrite Hm64 in *.
      destruct (Ascii.eqb ch "-"); simpl;
        (split; [done|]; intros [[= <-] ?]; lia).
  - destruct (strconv.parse_uint_loop 0 w) as [un [[]|]] eqn:Hun;
      simpl in Hloop; [| |done].
    + split; [done|]. by intros [? _].
    + apply parse_uint_loop_overflow in Hun as ->.
      destruct (Ascii.eqb ch "-"); simpl; (split; [done|]; by intros [? _]).
Qed.

Lemma Atoi_int64_literal s :
  match int64_literal s with
  | Some n => strconv.Atoi s = (n, None)
  | None => (strconv.Atoi s).2 ≠ None
  end.
Proof.
  unfold int64_literal.
  destruct (integer_literal s) as [n|] eqn:Hlit.
  - destruct ((- 2 ^ 63 <=? n) && (n <=? 2 ^ 63 - 1)) eqn:Hfit.
    + apply Atoi_integer_literal. split; [done|lia].
    + destruct (strconv.Atoi s) as [m [e|]] eqn:Hs; [done|].
      apply Atoi_integer_literal in Hs as [Hm ?].
      rewrite Hlit in Hm. injection Hm as <-. lia.
  - destruct (strconv.Atoi s) as [m [e|]] eqn:Hs; [done|].
    apply Atoi_integer_literal in Hs as [Hm ?]. congruence.
Qed.

(** A value [Atoi] returns without an error is a 64-bit [int]. *)
Lemma Atoi_range s n :
  strconv.Atoi s = (n, None) → - 2 ^ 63 ≤ n ≤ 2 ^ 63 - 1.
Proof.
  unfold strconv.Atoi, strconv.ParseInt.
  destruct s as [|ch rest]; [done|].
  destruct (strconv.ParseUint _) as [un [[]|]] eqn:Hun; [done| |].
  - apply ParseUint_overflow in Hun as ->.
    by destruct (Ascii.eqb ch "-").
  - apply ParseUint_nonneg in Hun.
    destruct (Ascii.eqb ch "-"); simpl.
    + destruct (2 ^ 63 <? un) eqn:Hc; [done|]. intros [= <-]. lia.
    + destruct (2 ^ 63 <=? un) eqn:Hc; [done|]. intros [= <-]. lia.
Qed.

(** *** getString and the round trip of a hit *)

Lemma getString_string doc key str :
  doc !! key = Some (VString str) → getString doc key = str.
Proof. unfold getString. by intros ->. Qed.

Lemma getString_absent doc key : doc !! key = None → getString doc key = "".
Proof. unfold getString. by intros ->. Qed.

Lemma getString_not_string (doc : gmap string Value) key v :
  doc !! key = Some v → (∀ str, v ≠ VString str) → getString doc key = "".
Proof.
  unfold getString. intros -> Hv. destruct v; try done. by destruct (Hv s).
Qed.

(** A hit decodes exactly when [Marshal] accepts it and it is an object
    or null. *)
Lemma decode_hit_Some hit doc :
  decode_hit hit = Some doc ↔
    json.encodable hit = true ∧ (hit = VMap doc ∨ (hit = VNil ∧ doc = ∅)).
Proof.
  unfold decode_hit, json.Marshal.
  destruct (json.encodable hit) eqn:He; simpl.
  - destruct hit; simpl; (split; [intros [= <-] | intros [_ [[= <-] | [[=] ->]]]]); auto.
  - split; [done|]. by intros [? _].
Qed.

(** *** Scores *)

Lemma results_from_scores n i hits :
  map Score (results_from n i hits) =
    scores_from n i (map (λ hit, bool_decide (is_Some (decode_hit hit))) hits).
Proof.
  revert i. induction hits as [|hit rest IH]; intros i; [done|].
  cbn [results_from map scores_from].
  destruct (decode_hit hit) as [doc|] eqn:Hd.
  - rewrite bool_decide_true by eauto. cbn [map Score result_of]. by rewrite IH.
  - rewrite bool_decide_false by (by intros [? ?]). apply IH.
Qed.

Lemma results_from_bounds n i hits r :
  r ∈ results_from n i hits →
  n - i - Z.of_nat (length hits) < Score r ≤ n - i.
Proof.
  revert i. induction hits as [|hit rest IH]; intros i; simpl.
  - by intros ?%elem_of_nil.
  - destruct (decode_hit hit) as [doc|].
    + intros [->|Hin]%elem_of_cons; [simpl; lia|].
      apply IH in Hin. lia.
    + intros Hin. apply IH in Hin. lia.
Qed.

Lemma results_from_decreasing n i hits (a b : nat) ra rb :
  (a < b)%nat →
  results_from n i hits !! a = Some ra →
  results_from n i hits !! b = Some rb →
  Score rb < Score ra.
Proof.
  revert i a b. induction hits as [|hit rest IH]; intros i a b Hab; simpl; [done|].
  destruct (decode_hit hit) as [doc|]; [|by apply IH].
  destruct b as [|b]; [lia|]. destruct a as [|a]; simpl.
  - intros [= <-] Hb. simpl.
    apply list_elem_of_lookup_2, results_from_bounds in Hb. lia.
  - apply IH. lia.
Qed.

Lemma results_from_all_decoded n i hits :
  Forall (λ hit, is_Some (decode_hit hit)) hits →
  ∀ (k : nat) r, results_from n i hits !! k = Some r → Score r = n - i - Z.of_nat k.
Proof.
  intros Hall. revert i. induction Hall as [|hit rest [doc Hdoc] _ IH]; intros i k r; simpl; [done|].
  rewrite Hdoc. destruct k as [|k]; simpl.
  - intros [= <-]. simpl. lia.
  - intros Hk. apply IH in Hk. lia.
Qed.

Lemma results_from_length n i hits :
  length (results_from n i hits) =
    length (filter (λ hit, is_Some (decode_hit hit)) hits).
Proof.
  revert i. induction hits as [|hit rest IH]; intros i; simpl; [done|].
  destruct (decode_hit hit) as [doc|] eqn:Hd.
  - rewrite filter_cons_True by (rewrite Hd; eauto). simpl. by rewrite IH.
  - rewrite filter_cons_False by (rewrite Hd; by intros [? ?]). apply IH.
Qed.

(** The fields of the results, scores apart: one per hit that decodes, in
    hit order. *)
Lemma results_from_fields n i hits :
  map (λ r, (ID r, Title r, Content r, URL r)) (results_from n i hits) =
    omap (λ hit, (λ doc, (getString doc "id", getString doc "title",
                           getString doc "content", getString doc "url"))
                 <$> decode_hit hit) hits.
Proof.
  revert i. induction hits as [|hit rest IH]; intros i; simpl; [done|].
  destruct (decode_hit hit) as [doc|]; simpl; by rewrite IH.
Qed.

End BackendFacts.

(* ===================================================================== *)
(** * Properties of the query proxy (JavaScript) *)
(* ===================================================================== *)

Section ApiFacts.

Import Api.
Local Open Scope Z_scope.

Lemma trim_empty : trim "" = "".
Proof. reflexivity. Qed.

(** What a GET request gets, by the shape of its [q]. *)
Lemma handler_get client req :
  method req = "GET" →
  io_run (handler client req) =
    match param req "q" with
    | QUndefined => (respond 400 (failure q_required None), [])
    | QArray _ =>
        (respond 500
           (failure "Search failed" (Some "query.trim is not a function")), [])
    | QString q =>
        if bool_decide (trim q = "") then
          (respond 400 (failure q_required None), [])
        else
          let call := search_call q (parseInt (limit_ToString (param req "limit"))) in
          (match client call with
           | inl answer => respond 200 (success_body q answer)
           | inr e => respond 500 (failure "Search failed" (Some (message e)))
           end, [call])
    end.
Proof.
  intros Hget. unfold io_run, handler. rewrite Hget. simpl.
  unfold try_catch, io_bind.
  destruct (param req "q") as [|q|l]; simpl; [done| |done].
  case_bool_decide as Hq; simpl.
  - subst q. by rewrite trim_empty.
  - unfold io_ret. case_bool_decide; [done|].
    unfold index_search, search_call. simpl.
    by destruct (client _).
Qed.

(** The handler never lets an exception escape. *)
Lemma handler_returns client req :
  ∃ resp, fst (io_run (handler client req)) = inl resp.
Proof.
  unfold io_run, handler.
  case_bool_decide; [by eexists|].
  case_bool_decide; [by eexists|].
  unfold try_catch.
  match goal with |- context [io_bind ?m ?k []] => destruct (io_bind m k []) as [[r|e] log] end;
    by eexists.
Qed.

End ApiFacts.

(* ===================================================================== *)
(** * Properties of the JSON body of the Go response *)
(* ===================================================================== *)

Section WireFacts.

(** A string of ASCII is written as it is. *)
Lemma coerce_utf8_ascii (s : string) :
  Forall (λ c, (N_of_ascii c < 128)%N) (list_ascii_of_string s) →
  Wire.coerce_utf8 s = s.
Proof.
  induction s as [|c rest IH]; [done|].
  cbn [list_ascii_of_string]. intros [Hc Hrest]%Forall_cons.
  cbn [Wire.coerce_utf8 Wire.rune_size]. unfold Wire.first.
  apply N.ltb_lt in Hc. rewrite Hc. by rewrite IH.
Qed.

(** Nothing is written for the empty string only. *)
Lemma coerce_utf8_nonempty (s : string) : s ≠ "" → Wire.coerce_utf8 s ≠ "".
Proof.
  destruct s as [|c0 r0]; [done|]. intros _.
  cbn [Wire.coerce_utf8].
  destruct (Wire.rune_size _) as [|[|[|[|[|n]]]]]; try done;
    destruct r0 as [|c1 [|c2 [|c3 r3]]]; done.
Qed.

(** The members of an encoded response, key by key. *)
Lemma encode_response_members (r : Backend.SearchResponse) :
  Wire.prop (Wire.encode_response r) "success" = Some (Wire.Bool (Backend.Success r))
  ∧ Wire.prop (Wire.encode_response r) "results" =
      (if bool_decide (Backend.Results r = []) then None
       else Some (Wire.Arr (map Wire.encode_result (Backend.Results r))))
  ∧ Wire.prop (Wire.encode_response r) "error" =
      (if bool_decide (Backend.Error r = "") then None
       else Some (Wire.Str (Wire.coerce_utf8 (Backend.Error r))))
  ∧ Wire.prop (Wire.encode_response r) "query" =
      (if bool_decide (Backend.Query r = "") then None
       else Some (Wire.Str (Wire.coerce_utf8 (Backend.Query r))))
  ∧ Wire.prop (Wire.encode_response r) "total" =
      (if bool_decide (Backend.Total r = 0%Z) then None
       else Some (Wire.Number (Backend.Total r))).
Proof.
  unfold Wire.encode_response, Wire.omitempty.
  repeat case_bool_decide; repeat split; reflexivity.
Qed.

(** The members of an encoded result. *)
Lemma encode_result_members (x : Backend.SearchResult) :
  Wire.prop (Wire.encode_result x) "id" =
    Some (Wire.Str (Wire.coerce_utf8 (Backend.ID x)))
  ∧ Wire.prop (Wire.encode_result x) "title" =
      Some (Wire.Str (Wire.coerce_utf8 (Backend.Title x)))
  ∧ Wire.prop (Wire.encode_result x) "content" =
      Some (Wire.Str (Wire.coerce_utf8 (Backend.Content x)))
  ∧ Wire.prop (Wire.encode_result x) "url" =
      Some (Wire.Str (Wire.coerce_utf8 (Backend.URL x)))
  ∧ Wire.prop (Wire.encode_result x) "score" = Some (Wire.Number (Backend.Score x)).
Proof. repeat split; reflexivity. Qed.

(** What the page shows for an encoded response: the results of a
    successful one, nothing for a failure. *)
Lemma results_of_encode_response (r : Backend.SearchResponse) :
  Frontend.results_of (Wire.encode_response r) =
    Wire.Arr (map Wire.encode_result
                (if Backend.Success r then Backend.Results r else [])).
Proof.
  destruct (encode_response_members r) as (Hs & Hr & _).
  unfold Frontend.results_of. change (Wire.encode_response r) with
    (Wire.Obj ([("success", Wire.Bool (Backend.Success r))]
       ++ Wire.omitempty (bool_decide (Backend.Results r = [])) "results"
            (Wire.Arr (map Wire.encode_result (Backend.Results r)))
       ++ Wire.omitempty (bool_decide (Backend.Error r = "")) "error"
            (Wire.Str (Wire.coerce_utf8 (Backend.Error r)))
       ++ Wire.omitempty (bool_decide (Backend.Query r = "")) "query"
            (Wire.Str (Wire.coerce_utf8 (Backend.Query r)))
       ++ Wire.omitempty (bool_decide (Backend.Total r = 0%Z)) "total"
            (Wire.Number (Backend.Total r)))) at 1.
  cbv iota. rewrite Hs, Hr. simpl.
  destruct (Backend.Success r); [|done].
  case_bool_decide as Hnil; [by rewrite Hnil|done].
Qed.

(** The body of a successful search without results. *)
Lemma encode_response_no_results (q : string) :
  q ≠ "" →
  Wire.encode_response
    {| Backend.Success := true; Backend.Results := []; Backend.Error := "";
       Backend.Query := q; Backend.Total := 0 |} =
  Wire.Obj [("success", Wire.Bool true); ("query", Wire.Str (Wire.coerce_utf8 q))].
Proof.
  intros Hq. unfold Wire.encode_response, Wire.omitempty. simpl.
  by rewrite bool_decide_false.
Qed.

End WireFacts.

(* ===================================================================== *)
(** * The query proxy: both servers *)
(* ===================================================================== *)

Section QueryProxy.

Local Open Scope Z_scope.

(** C1. A search request whose [q] is absent or empty is answered with
    status 400, success = false and a non-empty error message; no call to
    the search engine is made and no result list is produced. This holds
    for the Go server and for the GET path of the serverless handler. *)
Theorem missing_query_is_client_error :
  (∀ client config c resp log,
     Backend.GetQuery (Backend.query_pairs c) "q" = None
       ∨ Backend.GetQuery (Backend.query_pairs c) "q" = Some "" →
     Backend.io_run (Backend.search_handler client config c) = (resp, log) →
     log = []
     ∧ Backend.code resp = 400
     ∧ Backend.Success (Backend.obj resp) = false
     ∧ Backend.Error (Backend.obj resp) ≠ ""
     ∧ Backend.Results (Backend.obj resp) = [])
  ∧ (∀ client req r log,
       Api.method req = "GET" →
       Api.param req "q" = Api.QUndefined ∨ Api.param req "q" = Api.QString "" →
       Api.io_run (Api.handler client req) = (r, log) →
       log = []
       ∧ ∃ b msg,
           r = inl {| Api.status := 400; Api.body := Some b |}
           ∧ Api.success b = false
           ∧ Api.error b = Some msg ∧ msg ≠ ""
           ∧ Api.results b = None).
Proof.
  split.
  - intros client config c resp log Hq.
    rewrite search_handler_run. cbv zeta.
    assert (Backend.Query_ c "q" = "") as ->.
    { unfold Backend.Query_. by destruct Hq as [-> | ->]. }
    rewrite bool_decide_true by done. by intros [= <- <-].
  - intros client req r log Hget Hq.
    rewrite handler_get by done.
    destruct Hq as [-> | ->]; intros [= <- <-]; (split; [done|]);
      eexists _, Api.q_required; by repeat split.
Qed.

Lemma missing_query_is_client_error_witness :
  (let run := Backend.io_run (Backend.search_handler (Backend.answering Backend.mixed_hits)
                (Backend.loadConfig ∅) (Backend.request [("limit", "5")])) in
   run.2 = []
   ∧ Backend.code run.1 = 400
   ∧ Backend.Success (Backend.obj run.1) = false
   ∧ Backend.Error (Backend.obj run.1) ≠ ""
   ∧ Backend.Results (Backend.obj run.1) = [])
  ∧ (let run := Api.io_run (Api.handler (Api.answering [Api.page "a" "Alpha"])
                   (Api.get_request [("q", Api.QString "")])) in
     run.2 = []
     ∧ ∃ b msg,
         run.1 = inl {| Api.status := 400; Api.body := Some b |}
         ∧ Api.success b = false
         ∧ Api.error b = Some msg ∧ msg ≠ ""
         ∧ Api.results b = None).
Proof.
  split.
  - apply (proj1 missing_query_is_client_error
             (Backend.answering Backend.mixed_hits) (Backend.loadConfig ∅)
             (Backend.request [("limit", "5")])).
    + left. reflexivity.
    + reflexivity.
  - apply (proj2 missing_query_is_client_error
             (Api.answering [Api.page "a" "Alpha"])
             (Api.get_request [("q", Api.QString "")])).
    + reflexivity.
    + right. reflexivity.
    + reflexivity.
Defined.

(** Closes a goal whose premise finds a call in an empty log. *)
Local Ltac no_call := simpl; by intros ?%elem_of_nil.

(** Only a GET request reaches the engine. *)
Lemma handler_call_is_get client req call :
  call ∈ (Api.io_run (Api.handler client req)).2 → Api.method req = "GET".
Proof.
  unfold Api.io_run, Api.handler.
  case_bool_decide; [no_call|].
  case_bool_decide as Hm; [no_call|].
  intros _. destruct (decide (Api.method req = "GET")); [done|]. by destruct Hm.
Qed.

(** The call a GET request places, when it places one. *)
Lemma handler_call client req call :
  call ∈ (Api.io_run (Api.handler client req)).2 →
  ∃ q, Api.param req "q" = Api.QString q
       ∧ Api.trim q ≠ ""
       ∧ call = Api.search_call q (Api.parseInt (Api.limit_ToString (Api.param req "limit")))
       ∧ Api.io_run (Api.handler client req) =
           (match client call with
            | inl answer => Api.respond 200 (Api.success_body q answer)
            | inr e => Api.respond 500 (Api.failure "Search failed" (Some (Api.message e)))
            end, [call]).
Proof.
  intros Hin. pose proof (handler_call_is_get _ _ _ Hin) as Hget.
  revert Hin. rewrite handler_get by done.
  destruct (Api.param req "q") as [|q|l]; [no_call| |no_call].
  case_bool_decide as Hq; [no_call|].
  cbv zeta. simpl. intros ->%list_elem_of_singleton. by exists q.
Qed.

(** The call the Go handler places, when it places one. *)
Lemma search_handler_call client config c call :
  call ∈ (Backend.io_run (Backend.search_handler client config c)).2 →
  Backend.Query_ c "q" ≠ ""
  ∧ call = Backend.search_call (Backend.IndexName config) (Backend.Query_ c "q")
             (Backend.limit_of c).
Proof.
  rewrite search_handler_run. cbv zeta.
  case_bool_decide as Hq; [no_call|].
  simpl. by intros ->%list_elem_of_singleton.
Qed.

(** C2. When the call to the search engine returns an error, the request
    is answered with status 500, success = false and an error message,
    and the handler returns that response: the Go handler is a function
    from requests to responses, and the serverless handler ends with a
    response, never with an exception, whatever the request. *)
Theorem engine_failure_is_server_error :
  (∀ client config c resp log call err,
     Backend.io_run (Backend.search_handler client config c) = (resp, log) →
     call ∈ log →
     client call = Backend.Fail err →
     Backend.code resp = 500
     ∧ Backend.Success (Backend.obj resp) = false
     ∧ Backend.Error (Backend.obj resp) = "Search failed: " +:+ Backend.error_text err
     ∧ Backend.Error (Backend.obj resp) ≠ ""
     ∧ Backend.Results (Backend.obj resp) = [])
  ∧ (∀ client req r log call e,
       Api.io_run (Api.handler client req) = (r, log) →
       call ∈ log →
       client call = inr e →
       ∃ b,
         r = inl {| Api.status := 500; Api.body := Some b |}
         ∧ Api.success b = false
         ∧ Api.error b = Some "Search failed"
         ∧ Api.message_ b = Some (Api.message e)
         ∧ Api.results b = None)
  ∧ (∀ client req, ∃ resp, (Api.io_run (Api.handler client req)).1 = inl resp).
Proof.
  split; [|split; [|apply handler_returns]].
  - intros client config c resp log call err Hrun Hin Herr.
    assert (call ∈ (Backend.io_run (Backend.search_handler client config c)).2) as Hc
      by by rewrite Hrun.
    apply search_handler_call in Hc as [Hq ->].
    revert Hrun. rewrite search_handler_run. cbv zeta.
    rewrite bool_decide_false by done. rewrite Herr.
    by intros [= <- <-].
  - intros client req r log call e Hrun Hin Herr.
    assert (call ∈ (Api.io_run (Api.handler client req)).2) as Hc by by rewrite Hrun.
    apply handler_call in Hc as (q & Hq & Ht & -> & Hrun').
    rewrite Hrun' in Hrun. rewrite Herr in Hrun.
    injection Hrun as <- <-. by eexists.
Qed.

Lemma engine_failure_is_server_error_witness :
  (let client := Backend.failing "connection refused" in
   let run := Backend.io_run (Backend.search_handler client
                (Backend.loadConfig ∅) (Backend.request [("q", "go")])) in
   Backend.code run.1 = 500
   ∧ Backend.Success (Backend.obj run.1) = false
   ∧ Backend.Error (Backend.obj run.1) = "Search failed: connection refused"
   ∧ Backend.Error (Backend.obj run.1) ≠ ""
   ∧ Backend.Results (Backend.obj run.1) = [])
  ∧ (let client := Api.failing "connection refused" in
     let run := Api.io_run (Api.handler client
                  (Api.get_request [("q", Api.QString "go")])) in
     ∃ b,
       run.1 = inl {| Api.status := 500; Api.body := Some b |}
       ∧ Api.success b = false
       ∧ Api.error b = Some "Search failed"
       ∧ Api.message_ b = Some "connection refused"
       ∧ Api.results b = None).
Proof.
  split.
  - apply (proj1 engine_failure_is_server_error
             (Backend.failing "connection refused") (Backend.loadConfig ∅)
             (Backend.request [("q", "go")])
             (Backend.io_run (Backend.search_handler
                (Backend.failing "connection refused") (Backend.loadConfig ∅)
                (Backend.request [("q", "go")]))).1
             [Backend.search_call "documents" "go" 20]
             (Backend.search_call "documents" "go" 20)
             (Backend.errors_New "connection refused")).
    + reflexivity.
    + left.
    + reflexivity.
  - apply (proj1 (proj2 engine_failure_is_server_error)
             (Api.failing "connection refused")
             (Api.get_request [("q", Api.QString "go")])
             (Api.io_run (Api.handler (Api.failing "connection refused")
                (Api.get_request [("q", Api.QString "go")]))).1
             [Api.search_call "go" 20%float]
             (Api.search_call "go" 20%float)
             (Api.Throw "connection refused")).
    + reflexivity.
    + left.
    + reflexivity.
Defined.

(** C5, as the code has it. A request with a non-empty [q] whose call to
    the search engine succeeds is answered with status 200, success =
    true and the query echoed. The serverless handler always sends the
    results in hit order, each with id, title, content, url and score,
    and total equal to their number. The Go server builds the same
    envelope, one result for each hit that decodes, but writes it with
    omitempty: the result list and total are in the body exactly when
    there is at least one result, and a successful search with no result
    is answered by success and query alone. *)
Theorem successful_search_envelope :
  (∀ client config c resp log call answer,
     Backend.Query_ c "q" ≠ "" →
     Backend.io_run (Backend.search_handler client config c) = (resp, log) →
     call ∈ log →
     client call = Backend.Ok answer →
     let hits := Backend.meilisearch.Hits answer in
     let r := Backend.obj resp in
     let body := Wire.encode_response r in
     Backend.code resp = 200
     ∧ Backend.Success r = true
     ∧ Backend.Results r = Backend.results_from (Z.of_nat (length hits)) 0 hits
     ∧ map (λ x, (Backend.ID x, Backend.Title x, Backend.Content x, Backend.URL x))
         (Backend.Results r) =
         omap (λ hit,
                 (λ doc, (Backend.getString doc "id", Backend.getString doc "title",
                          Backend.getString doc "content", Backend.getString doc "url"))
                   <$> Backend.decode_hit hit) hits
     ∧ Backend.Query r = Backend.Query_ c "q"
     ∧ Backend.Total r = Z.of_nat (length (Backend.Results r))
     ∧ Backend.Error r = ""
     ∧ Wire.prop body "success" = Some (Wire.Bool true)
     ∧ Wire.prop body "query" = Some (Wire.Str (Wire.coerce_utf8 (Backend.Query_ c "q")))
     ∧ Wire.prop body "error" = None
     ∧ (Backend.Results r ≠ [] →
        Wire.prop body "results" =
          Some (Wire.Arr (map Wire.encode_result (Backend.Results r)))
        ∧ Wire.prop body "total" =
            Some (Wire.Number (Z.of_nat (length (Backend.Results r)))))
     ∧ (Backend.Results r = [] →
        body = Wire.Obj [("success", Wire.Bool true);
                         ("query", Wire.Str (Wire.coerce_utf8 (Backend.Query_ c "q")))])
     ∧ (∀ x, x ∈ Backend.Results r →
          Wire.encode_result x =
            Wire.Obj [("id", Wire.Str (Wire.coerce_utf8 (Backend.ID x)));
                      ("title", Wire.Str (Wire.coerce_utf8 (Backend.Title x)));
                      ("content", Wire.Str (Wire.coerce_utf8 (Backend.Content x)));
                      ("url", Wire.Str (Wire.coerce_utf8 (Backend.URL x)));
                      ("score", Wire.Number (Backend.Score x))]))
  ∧ (∀ client req q r log call answer,
       Api.param req "q" = Api.QString q →
       q ≠ "" →
       Api.io_run (Api.handler client req) = (r, log) →
       call ∈ log →
       client call = inl answer →
       ∃ b rs,
         r = inl {| Api.status := 200; Api.body := Some b |}
         ∧ Api.success b = true
         ∧ Api.results b = Some rs
         ∧ rs = imap (Api.format_result (length (Api.hits answer))) (Api.hits answer)
         ∧ length rs = length (Api.hits answer)
         ∧ (∀ (i : nat) hit, (Api.hits answer) !! i = Some hit →
              ∃ x, rs !! i = Some x
                ∧ Api.id x =
                    Api.js_or (Api.get hit "id") (Api.JString ("result-" +:+ pretty i))
                ∧ Api.title x = Api.js_or (Api.get hit "title") (Api.JString "Untitled")
                ∧ Api.content x = Api.js_or (Api.get hit "content") (Api.JString "")
                ∧ Api.url x = Api.js_or (Api.get hit "url") (Api.JString "#")
                ∧ Api.score x = Z.of_nat (length (Api.hits answer)) - Z.of_nat i)
         ∧ Api.query_ b = Some q
         ∧ Api.total b = Some (Z.of_nat (length rs))
         ∧ Api.processingTimeMs_ b = Some (Api.processingTimeMs answer)
         ∧ Api.error b = None
         ∧ Api.message_ b = None).
Proof.
  split.
  - intros client config c resp log call answer Hq Hrun Hin Hok.
    assert (call ∈ (Backend.io_run (Backend.search_handler client config c)).2) as Hc
      by by rewrite Hrun.
    apply search_handler_call in Hc as [_ ->].
    revert Hrun. rewrite search_handler_run. cbv zeta.
    rewrite bool_decide_false by done. rewrite Hok.
    intros [= <- <-]. cbn [Backend.code Backend.obj].
    set (results := Backend.results_from _ _ _).
    destruct (encode_response_members
                {| Backend.Success := true; Backend.Results := results;
                   Backend.Error := ""; Backend.Query := Backend.Query_ c "q";
                   Backend.Total := Z.of_nat (length results) |})
      as (Hs & Hr & He & Hqq & Ht).
    cbn [Backend.Success Backend.Results Backend.Error Backend.Query Backend.Total]
      in *.
    rewrite Hs, Hr, He, Hqq, Ht.
    rewrite (bool_decide_false (Backend.Query_ c "q" = "")) by done.
    rewrite (bool_decide_true ("" = "")) by done.
    split; [done|]. split; [done|]. split; [done|].
    split; [apply results_from_fields|].
    split; [done|]. split; [done|]. split; [done|]. split; [done|].
    split; [done|]. split; [done|]. split; [|split; [|done]].
    + intros Hne. rewrite bool_decide_false by done.
      rewrite bool_decide_false; [done|]. destruct results; [done|]. simpl. lia.
    + intros ->. by apply encode_response_no_results.
  - intros client req q r log call answer Hq Hne Hrun Hin Hok.
    assert (call ∈ (Api.io_run (Api.handler client req)).2) as Hc by by rewrite Hrun.
    apply handler_call in Hc as (q' & Hq' & Ht & -> & Hrun').
    rewrite Hq in Hq'. injection Hq' as <-.
    rewrite Hrun' in Hrun. rewrite Hok in Hrun.
    injection Hrun as <- <-. eexists _, _.
    split; [reflexivity|]. split; [reflexivity|]. split; [reflexivity|].
    split; [reflexivity|]. split; [by rewrite length_imap|].
    split; [|done].
    intros i hit Hhit. rewrite list_lookup_imap, Hhit. simpl. by eexists.
Qed.

Lemma successful_search_envelope_witness :
  (let client := Backend.answering Backend.mixed_hits in
   let run := Backend.io_run (Backend.search_handler client
                (Backend.loadConfig ∅) (Backend.request [("q", "go")])) in
   let hits := Backend.mixed_hits in
   let r := Backend.obj run.1 in
   let body := Wire.encode_response r in
   Backend.code run.1 = 200
   ∧ Backend.Success r = true
   ∧ Backend.Results r = Backend.results_from (Z.of_nat (length hits)) 0 hits
   ∧ map (λ x, (Backend.ID x, Backend.Title x, Backend.Content x, Backend.URL x))
       (Backend.Results r) =
       omap (λ hit,
               (λ doc, (Backend.getString doc "id", Backend.getString doc "title",
                        Backend.getString doc "content", Backend.getString doc "url"))
                 <$> Backend.decode_hit hit) hits
   ∧ Backend.Query r = "go"
   ∧ Backend.Total r = Z.of_nat (length (Backend.Results r))
   ∧ Backend.Error r = ""
   ∧ Wire.prop body "success" = Some (Wire.Bool true)
   ∧ Wire.prop body "query" = Some (Wire.Str (Wire.coerce_utf8 ("go")))
   ∧ Wire.prop body "error" = None
   ∧ (Backend.Results r ≠ [] →
      Wire.prop body "results" =
        Some (Wire.Arr (map Wire.encode_result (Backend.Results r)))
      ∧ Wire.prop body "total" =
          Some (Wire.Number (Z.of_nat (length (Backend.Results r)))))
   ∧ (Backend.Results r = [] →
      body = Wire.Obj [("success", Wire.Bool true);
                       ("query", Wire.Str (Wire.coerce_utf8 ("go")))])
   ∧ (∀ x, x ∈ Backend.Results r →
        Wire.encode_result x =
          Wire.Obj [("id", Wire.Str (Wire.coerce_utf8 (Backend.ID x)));
                    ("title", Wire.Str (Wire.coerce_utf8 (Backend.Title x)));
                    ("content", Wire.Str (Wire.coerce_utf8 (Backend.Content x)));
                    ("url", Wire.Str (Wire.coerce_utf8 (Backend.URL x)));
                    ("score", Wire.Number (Backend.Score x))]))
  ∧ (let docs := [Api.page "a" "Alpha"; Api.page "b" "Beta"] in
     let run := Api.io_run (Api.handler (Api.answering docs)
                  (Api.get_request [("q", Api.QString "go")])) in
     ∃ b rs,
       run.1 = inl {| Api.status := 200; Api.body := Some b |}
       ∧ Api.success b = true
       ∧ Api.results b = Some rs
       ∧ rs = imap (Api.format_result (length (docs))) (docs)
       ∧ length rs = length (docs)
       ∧ (∀ (i : nat) hit, (docs) !! i = Some hit →
            ∃ x, rs !! i = Some x
              ∧ Api.id x =
                  Api.js_or (Api.get hit "id") (Api.JString ("result-" +:+ pretty i))
              ∧ Api.title x = Api.js_or (Api.get hit "title") (Api.JString "Untitled")
              ∧ Api.content x = Api.js_or (Api.get hit "content") (Api.JString "")
              ∧ Api.url x = Api.js_or (Api.get hit "url") (Api.JString "#")
              ∧ Api.score x = Z.of_nat (length (docs)) - Z.of_nat i)
       ∧ Api.query_ b = Some "go"
       ∧ Api.total b = Some (Z.of_nat (length rs))
       ∧ Api.processingTimeMs_ b = Some (Api.JNumber 1)
       ∧ Api.error b = None
       ∧ Api.message_ b = None).
Proof.
  split.
  - apply (proj1 successful_search_envelope
             (Backend.answering Backend.mixed_hits) (Backend.loadConfig ∅)
             (Backend.request [("q", "go")])
             (Backend.io_run (Backend.search_handler
                (Backend.answering Backend.mixed_hits) (Backend.loadConfig ∅)
                (Backend.request [("q", "go")]))).1
             [Backend.search_call "documents" "go" 20]
             (Backend.search_call "documents" "go" 20)
             {| Backend.meilisearch.Hits := Backend.mixed_hits |}).
    + vm_compute. discriminate.
    + reflexivity.
    + left.
    + reflexivity.
  - apply (proj2 successful_search_envelope
             (Api.answering [Api.page "a" "Alpha"; Api.page "b" "Beta"])
             (Api.get_request [("q", Api.QString "go")]) "go"
             (Api.io_run (Api.handler
                (Api.answering [Api.page "a" "Alpha"; Api.page "b" "Beta"])
                (Api.get_request [("q", Api.QString "go")]))).1
             [Api.search_call "go" 20%float]
             (Api.search_call "go" 20%float)
             {| Api.hits := [Api.page "a" "Alpha"; Api.page "b" "Beta"];
                Api.processingTimeMs := Api.JNumber 1 |}).
    + reflexivity.
    + discriminate.
    + reflexivity.
    + left.
    + reflexivity.
Defined.

(** The scores of the serverless handler's results. *)
Lemma format_result_scores (n : nat) (docs : list (gmap string Api.JsValue)) :
  Api.score_by_position (Z.of_nat n) (imap (Api.format_result n) docs).
Proof.
  intros i r. rewrite list_lookup_imap.
  destruct (docs !! i) as [hit|]; simpl; [|done].
  by intros [= <-].
Qed.

(** C4, as the code has it. A result's score is [n] minus the position of
    its hit in the engine's hit list, [n] being the number of hits: the
    scores are fixed by which hits are kept. Where every hit is kept (in
    the Go server: every hit decodes; in the serverless handler: always)
    the result at position [i] has score [n - i]. In the Go server the
    scores are strictly decreasing along the results and lie between 1
    and [n]. *)
Theorem score_is_hit_position :
  (∀ client config c resp log call answer,
     Backend.io_run (Backend.search_handler client config c) = (resp, log) →
     call ∈ log →
     client call = Backend.Ok answer →
     let hits := Backend.meilisearch.Hits answer in
     let n := Z.of_nat (length hits) in
     let results := Backend.Results (Backend.obj resp) in
     map Backend.Score results =
       Backend.scores_from n 0
         (map (λ hit, bool_decide (is_Some (Backend.decode_hit hit))) hits)
     ∧ (Forall (λ hit, is_Some (Backend.decode_hit hit)) hits →
        Backend.score_by_position n results)
     ∧ (∀ (i j : nat) ri rj,
          (i < j)%nat → results !! i = Some ri → results !! j = Some rj →
          Backend.Score rj < Backend.Score ri)
     ∧ (∀ r, r ∈ results → 1 ≤ Backend.Score r ≤ n))
  ∧ (∀ client req r log call answer,
       Api.io_run (Api.handler client req) = (r, log) →
       call ∈ log →
       client call = inl answer →
       ∃ b rs,
         r = inl {| Api.status := 200; Api.body := Some b |}
         ∧ Api.results b = Some rs
         ∧ length rs = length (Api.hits answer)
         ∧ Api.score_by_position (Z.of_nat (length (Api.hits answer))) rs).
Proof.
  split.
  - intros client config c resp log call answer Hrun Hin Hok.
    assert (call ∈ (Backend.io_run (Backend.search_handler client config c)).2) as Hc
      by by rewrite Hrun.
    apply search_handler_call in Hc as [Hq ->].
    revert Hrun. rewrite search_handler_run. cbv zeta.
    rewrite bool_decide_false by done. rewrite Hok.
    intros [= <- <-]. simpl.
    split; [apply results_from_scores|].
    split.
    { intros Hall i r Hi.
      rewrite (results_from_all_decoded _ _ _ Hall i r Hi). lia. }
    split.
    { intros i j ri rj. apply results_from_decreasing. }
    intros r Hr. apply results_from_bounds in Hr. lia.
  - intros client req r log call answer Hrun Hin Hok.
    assert (call ∈ (Api.io_run (Api.handler client req)).2) as Hc by by rewrite Hrun.
    apply handler_call in Hc as (q & Hq & Ht & -> & Hrun').
    rewrite Hrun' in Hrun. rewrite Hok in Hrun.
    injection Hrun as <- <-. eexists _, _.
    split; [reflexivity|]. split; [reflexivity|].
    split; [apply length_imap|apply format_result_scores].
Qed.

Lemma score_is_hit_position_witness :
  (let hits := Backend.mixed_hits in
   let run := Backend.io_run (Backend.search_handler (Backend.answering hits)
                (Backend.loadConfig ∅) (Backend.request [("q", "go")])) in
   let results := Backend.Results (Backend.obj run.1) in
   map Backend.Score results =
     Backend.scores_from 3 0
       (map (λ hit, bool_decide (is_Some (Backend.decode_hit hit))) hits)
   ∧ (Forall (λ hit, is_Some (Backend.decode_hit hit)) hits →
      Backend.score_by_position 3 results)
   ∧ (∀ (i j : nat) ri rj,
        (i < j)%nat → results !! i = Some ri → results !! j = Some rj →
        Backend.Score rj < Backend.Score ri)
   ∧ (∀ r, r ∈ results → 1 ≤ Backend.Score r ≤ 3))
  ∧ (let docs := [Api.page "a" "Alpha"; Api.page "b" "Beta"] in
     let run := Api.io_run (Api.handler (Api.answering docs)
                  (Api.get_request [("q", Api.QString "go")])) in
     ∃ b rs,
       run.1 = inl {| Api.status := 200; Api.body := Some b |}
       ∧ Api.results b = Some rs
       ∧ length rs = 2%nat
       ∧ Api.score_by_position 2 rs).
Proof.
  split.
  - apply (proj1 score_is_hit_position
             (Backend.answering Backend.mixed_hits) (Backend.loadConfig ∅)
             (Backend.request [("q", "go")])
             (Backend.io_run (Backend.search_handler
                (Backend.answering Backend.mixed_hits) (Backend.loadConfig ∅)
                (Backend.request [("q", "go")]))).1
             [Backend.search_call "documents" "go" 20]
             (Backend.search_call "documents" "go" 20)
             {| Backend.meilisearch.Hits := Backend.mixed_hits |}).
    + reflexivity.
    + left.
    + reflexivity.
  - apply (proj2 score_is_hit_position
             (Api.answering [Api.page "a" "Alpha"; Api.page "b" "Beta"])
             (Api.get_request [("q", Api.QString "go")])
             (Api.io_run (Api.handler
                (Api.answering [Api.page "a" "Alpha"; Api.page "b" "Beta"])
                (Api.get_request [("q", Api.QString "go")]))).1
             [Api.search_call "go" 20%float]
             (Api.search_call "go" 20%float)
             {| Api.hits := [Api.page "a" "Alpha"; Api.page "b" "Beta"];
                Api.processingTimeMs := Api.JNumber 1 |}).
    + reflexivity.
    + left.
    + reflexivity.
Defined.

(** C9. Whatever hits the engine returns, [performSearch] returns a result
    list and no error. The results are, in hit order, one per hit that
    survives the Marshal/Unmarshal round trip; each field of a result is
    what [getString] reads from the decoded hit, which is the value under
    the key when that is a string and the empty string when the key is
    absent or holds anything else. *)
Theorem performSearch_total_on_malformed_hits
    client indexName query limit log answer :
  client (Backend.search_call indexName query limit) = Backend.Ok answer →
  let hits := Backend.meilisearch.Hits answer in
  ∃ results,
    Backend.performSearch client indexName query limit log =
      (Backend.Ok results, log ++ [Backend.search_call indexName query limit])
    ∧ map (λ r, (Backend.ID r, Backend.Title r, Backend.Content r, Backend.URL r))
          results =
        omap (λ hit,
                (λ doc, (Backend.getString doc "id", Backend.getString doc "title",
                         Backend.getString doc "content", Backend.getString doc "url"))
                <$> Backend.decode_hit hit) hits
    ∧ length results =
        length (filter (λ hit, is_Some (Backend.decode_hit hit)) hits)
    ∧ (∀ (doc : gmap string Backend.Value) key,
         (∀ str, doc !! key = Some (Backend.VString str) →
                 Backend.getString doc key = str)
         ∧ (doc !! key = None → Backend.getString doc key = "")
         ∧ (∀ v, doc !! key = Some v → (∀ str, v ≠ Backend.VString str) →
                 Backend.getString doc key = "")).
Proof.
  intros Hok hits. eexists. rewrite performSearch_run, Hok.
  split; [reflexivity|].
  split; [apply results_from_fields|].
  split; [apply results_from_length|].
  intros doc key. split; [|split].
  - intros str. apply getString_string.
  - apply getString_absent.
  - intros v. apply getString_not_string.
Qed.

Lemma performSearch_total_on_malformed_hits_witness :
  let client := Backend.answering Backend.mixed_hits in
  ∃ results,
    Backend.performSearch client "documents" "go" 20 [] =
      (Backend.Ok results, [] ++ [Backend.search_call "documents" "go" 20])
    ∧ map (λ r, (Backend.ID r, Backend.Title r, Backend.Content r, Backend.URL r))
          results =
        omap (λ hit,
                (λ doc, (Backend.getString doc "id", Backend.getString doc "title",
                         Backend.getString doc "content", Backend.getString doc "url"))
                <$> Backend.decode_hit hit) Backend.mixed_hits
    ∧ length results =
        length (filter (λ hit, is_Some (Backend.decode_hit hit)) Backend.mixed_hits)
    ∧ (∀ (doc : gmap string Backend.Value) key,
         (∀ str, doc !! key = Some (Backend.VString str) →
                 Backend.getString doc key = str)
         ∧ (doc !! key = None → Backend.getString doc key = "")
         ∧ (∀ v, doc !! key = Some v → (∀ str, v ≠ Backend.VString str) →
                 Backend.getString doc key = "")).
Proof.
  apply (performSearch_total_on_malformed_hits
           (Backend.answering Backend.mixed_hits) "documents" "go" 20 []
           {| Backend.meilisearch.Hits := Backend.mixed_hits |}).
  reflexivity.
Defined.

(** C3, as the code has it. A request with a non-empty [q] places one
    call. Its limit is 20 when [limit] is absent or is not an integer
    literal that fits a 64-bit [int] (the strings [strconv.Atoi] rejects);
    otherwise it is the integer written, passed on unchanged whatever its
    sign. *)
Theorem limit_defaults_to_20 client config c :
  Backend.Query_ c "q" ≠ "" →
  ∃ call,
    (Backend.io_run (Backend.search_handler client config c)).2 = [call]
    ∧ Backend.meilisearch.call_query call = Backend.Query_ c "q"
    ∧ (Backend.GetQuery (Backend.query_pairs c) "limit" = None →
       Backend.meilisearch.Limit (Backend.meilisearch.call_request call) = 20)
    ∧ (∀ s,
         Backend.GetQuery (Backend.query_pairs c) "limit" = Some s →
         Backend.int64_literal s = None →
         Backend.meilisearch.Limit (Backend.meilisearch.call_request call) = 20)
    ∧ (∀ s n,
         Backend.GetQuery (Backend.query_pairs c) "limit" = Some s →
         Backend.int64_literal s = Some n →
         Backend.meilisearch.Limit (Backend.meilisearch.call_request call) = n
         ∧ - 2 ^ 63 ≤ n ≤ 2 ^ 63 - 1).
Proof.
  intros Hq. eexists. rewrite search_handler_run. cbv zeta.
  rewrite bool_decide_false by done.
  split; [reflexivity|]. split; [reflexivity|]. simpl.
  unfold Backend.limit_of, Backend.DefaultQuery.
  split; [by intros ->|]. split.
  - intros s -> Hs. simpl. pose proof (Atoi_int64_literal s) as Hatoi.
    rewrite Hs in Hatoi. by destruct (Backend.strconv.Atoi s) as [m [e|]].
  - intros s n -> Hs. simpl. pose proof (Atoi_int64_literal s) as Hatoi.
    rewrite Hs in Hatoi. rewrite Hatoi. split; [done|]. by eapply Atoi_range.
Qed.

Lemma limit_defaults_to_20_witness :
  let client := Backend.answering Backend.mixed_hits in
  let c := Backend.request [("q", "go"); ("limit", "many")] in
  ∃ call,
    (Backend.io_run (Backend.search_handler client (Backend.loadConfig ∅) c)).2 = [call]
    ∧ Backend.meilisearch.call_query call = Backend.Query_ c "q"
    ∧ (Backend.GetQuery (Backend.query_pairs c) "limit" = None →
       Backend.meilisearch.Limit (Backend.meilisearch.call_request call) = 20)
    ∧ (∀ s,
         Backend.GetQuery (Backend.query_pairs c) "limit" = Some s →
         Backend.int64_literal s = None →
         Backend.meilisearch.Limit (Backend.meilisearch.call_request call) = 20)
    ∧ (∀ s n,
         Backend.GetQuery (Backend.query_pairs c) "limit" = Some s →
         Backend.int64_literal s = Some n →
         Backend.meilisearch.Limit (Backend.meilisearch.call_request call) = n
         ∧ - 2 ^ 63 ≤ n ≤ 2 ^ 63 - 1).
Proof.
  apply (limit_defaults_to_20 (Backend.answering Backend.mixed_hits)
           (Backend.loadConfig ∅)
           (Backend.request [("q", "go"); ("limit", "many")])).
  vm_compute. discriminate.
Defined.

(** C3 as stated fails: [limit=-5] parses, so the engine is called with
    limit -5, which is not positive; [limit=0] likewise gives 0. *)
Lemma limit_not_always_positive :
  let client := Backend.answering [] in
  let log_of pairs :=
    (Backend.io_run (Backend.search_handler client (Backend.loadConfig ∅)
       (Backend.request pairs))).2 in
  let limits log :=
    map (λ call, Backend.meilisearch.Limit (Backend.meilisearch.call_request call)) log in
  limits (log_of [("q", "go"); ("limit", "-5")]) = [-5]
  ∧ limits (log_of [("q", "go"); ("limit", "0")]) = [0]
  ∧ ¬ Forall (λ l, 0 < l) (limits (log_of [("q", "go"); ("limit", "-5")])).
Proof.
  cbv zeta. split; [reflexivity|]. split; [reflexivity|].
  intros H. apply Forall_cons in H as [H _]. vm_compute in H. discriminate H.
Qed.

(** C4 as stated fails in the Go server: of three hits the middle one is
    not a document and is skipped, so the two results are scored 3 and 1.
    The result at position 1 has score 1, not 3 - 1, and the result at
    position 0 has score 3, not 2 - 0: the scores follow neither the
    number of hits nor the number of results. *)
Lemma score_by_position_fails :
  let client := Backend.answering Backend.mixed_hits in
  let run := Backend.io_run (Backend.search_handler client
               (Backend.loadConfig ∅) (Backend.request [("q", "go")])) in
  let results := Backend.Results (Backend.obj run.1) in
  Backend.code run.1 = 200
  ∧ length Backend.mixed_hits = 3%nat
  ∧ map Backend.Score results = [3; 1]
  ∧ ¬ Backend.score_by_position 3 results
  ∧ ¬ Backend.score_by_position 2 results.
Proof.
  cbv zeta. split; [reflexivity|]. split; [reflexivity|]. split; [reflexivity|].
  split.
  - intros H. specialize (H 1%nat _ eq_refl). discriminate H.
  - intros H. specialize (H 0%nat _ eq_refl). discriminate H.
Qed.

(** C5 as stated fails in the Go server: a search that succeeds with no
    hit is answered by a body of two members, success and query; there is
    no result list in it and no total. The serverless handler, for the
    same answer of the engine, sends an empty list and total 0. *)
Lemma zero_hit_success_has_no_total :
  let run := Backend.io_run (Backend.search_handler (Backend.answering [])
               (Backend.loadConfig ∅) (Backend.request [("q", "go")])) in
  let body := Wire.encode_response (Backend.obj run.1) in
  let js := Api.io_run (Api.handler (Api.answering [])
              (Api.get_request [("q", Api.QString "go")])) in
  run.2 = [Backend.search_call "documents" "go" 20]
  ∧ Backend.code run.1 = 200
  ∧ Backend.Success (Backend.obj run.1) = true
  ∧ body = Wire.Obj [("success", Wire.Bool true); ("query", Wire.Str "go")]
  ∧ Wire.prop body "results" = None
  ∧ Wire.prop body "total" = None
  ∧ ¬ (∃ n, Wire.prop body "total" = Some (Wire.Number n))
  ∧ ¬ (∃ items, Wire.prop body "results" = Some (Wire.Arr items))
  ∧ ∃ b, js.1 = inl {| Api.status := 200; Api.body := Some b |}
         ∧ Api.results b = Some [] ∧ Api.total b = Some 0.
Proof.
  cbv zeta. split; [reflexivity|]. split; [reflexivity|]. split; [reflexivity|].
  split; [reflexivity|]. split; [reflexivity|]. split; [reflexivity|].
  split; [by intros [n [=]]|]. split; [by intros [items [=]]|].
  by eexists.
Qed.

End QueryProxy.

(* ===================================================================== *)
(** * Properties of the crawl pipeline *)
(* ===================================================================== *)

Section CrawlerFacts.

Import Crawler.
Context (cfg : Setup).

(** *** The frontier *)

Lemma empty_frontier_ok : frontier_ok cfg empty_frontier.
Proof. split; simpl; [constructor|]. by intros e ?%elem_of_nil. Qed.

Lemma offer_noop e F :
  key cfg e ∈ map (key cfg) (pending F) ∨ key cfg e ∈ visited F → offer cfg e F = F.
Proof.
  unfold Crawler.offer. intros Hin.
  case_bool_decide; [done|]. case_bool_decide; [done|].
  case_bool_decide; [done|]. by destruct Hin.
Qed.

Lemma offer_visited e F : visited (offer cfg e F) = visited F.
Proof. unfold Crawler.offer. by repeat case_bool_decide. Qed.

Lemma offer_ok e F : frontier_ok cfg F → frontier_ok cfg (offer cfg e F).
Proof.
  intros [Hnd Hvis]. unfold Crawler.offer.
  case_bool_decide; [done|]. case_bool_decide as Hp; [done|].
  case_bool_decide as Hv; [done|]. split; simpl.
  - rewrite map_app. simpl. apply NoDup_app. split; [done|]. split.
    + intros k Hk ->%list_elem_of_singleton. done.
    + apply NoDup_singleton.
  - intros e' [He'| ->%list_elem_of_singleton]%elem_of_app; [by apply Hvis|done].
Qed.

Lemma shallowest_in e l : shallowest e l ∈ e :: l.
Proof.
  revert e. induction l as [|x l IH]; intros e; simpl; [left|].
  specialize (IH (if (depth x <? depth e)%nat then x else e)).
  apply elem_of_cons in IH as [-> | Hin].
  - destruct (depth x <? depth e)%nat; [right; left | left].
  - right. by right.
Qed.

Lemma remove_key_subset k l e : e ∈ remove_key cfg k l → e ∈ l.
Proof.
  induction l as [|x l IH]; simpl; [done|].
  case_bool_decide; [by right|].
  intros [-> | Hin]%elem_of_cons; [left | right; by apply IH].
Qed.

Lemma remove_key_keys k k' l :
  k' ∈ map (key cfg) (remove_key cfg k l) → k' ∈ map (key cfg) l.
Proof.
  intros (e & -> & Hin)%list_elem_of_fmap. apply list_elem_of_fmap.
  exists e. split; [done|]. by eapply remove_key_subset.
Qed.

Lemma remove_key_NoDup k l :
  NoDup (map (key cfg) l) →
  NoDup (map (key cfg) (remove_key cfg k l))
  ∧ (k ∉ map (key cfg) (remove_key cfg k l)).
Proof.
  induction l as [|x l IH]; simpl.
  - intros _. split; [constructor|]. by intros ?%elem_of_nil.
  - intros [Hx Hnd]%NoDup_cons. case_bool_decide as Hk.
    + split; [done|]. by rewrite <- Hk.
    + destruct (IH Hnd) as [IH1 IH2]. simpl. split.
      * apply NoDup_cons. split; [|done].
        intros Hin. by apply Hx, (remove_key_keys k).
      * intros [?|?]%elem_of_cons; [by apply Hk|by apply IH2].
Qed.

Lemma take_spec F e F' :
  frontier_ok cfg F →
  take cfg F = Some (e, F') →
  e ∈ pending F
  ∧ (key cfg e ∉ visited F)
  ∧ visited F' = {[ key cfg e ]} ∪ visited F
  ∧ frontier_ok cfg F'.
Proof.
  intros [Hnd Hvis]. unfold Crawler.take.
  destruct (pending F) as [|e0 rest] eqn:Hp; [done|].
  intros [= <- <-]. pose proof (shallowest_in e0 rest) as Hin.
  split; [done|]. split; [by apply Hvis|]. split; [done|].
  destruct (remove_key_NoDup (key cfg (shallowest e0 rest)) (e0 :: rest) Hnd) as [H1 H2].
  split; [exact H1|]. cbn [pending visited].
  intros e' He'. apply not_elem_of_union. split.
  - intros Heq%elem_of_singleton. apply H2.
    apply list_elem_of_fmap. exists e'. split; [done|exact He'].
  - apply Hvis. by eapply remove_key_subset.
Qed.

Lemma run_ops_spec ops F F' out :
  frontier_ok cfg F →
  run_ops cfg ops F = (F', out) →
  frontier_ok cfg F'
  ∧ NoDup (map (key cfg) out)
  ∧ (∀ e, e ∈ out → key cfg e ∉ visited F)
  ∧ visited F' = list_to_set (map (key cfg) out) ∪ visited F.
Proof.
  revert F F' out. induction ops as [|[e|] ops IH]; intros F F' out Hok; simpl.
  - intros [= <- <-]. split; [done|]. split; [constructor|].
    split; [by intros e ?%elem_of_nil|]. simpl. set_solver.
  - intros Hrun. apply IH in Hrun; [|by apply offer_ok].
    by rewrite offer_visited in Hrun.
  - destruct (take cfg F) as [[e F1]|] eqn:Htake; [|by apply IH].
    destruct (run_ops cfg ops F1) as [F2 out2] eqn:Hrun.
    intros [= <- <-].
    apply take_spec in Htake as (Hin & Hfresh & Hvis & Hok1); [|done].
    apply IH in Hrun as (Hok2 & Hnd & Hout & Hvis2); [|done].
    split; [done|]. split; [|split].
    + simpl. apply NoDup_cons. split; [|done].
      intros (e' & He' & Hin')%list_elem_of_fmap.
      apply (Hout e' Hin'). rewrite Hvis, <- He'. set_solver.
    + intros e' [-> | He']%elem_of_cons; [done|].
      intros Hv. apply (Hout e' He'). rewrite Hvis. set_solver.
    + rewrite Hvis2, Hvis. simpl. set_solver.
Qed.

Lemma run_ops_app ops1 ops2 F :
  run_ops cfg (ops1 ++ ops2) F =
    let '(F1, out1) := run_ops cfg ops1 F in
    let '(F2, out2) := run_ops cfg ops2 F1 in
    (F2, out1 ++ out2).
Proof.
  revert F. induction ops1 as [|[e|] ops1 IH]; intros F; simpl.
  - by destruct (run_ops cfg ops2 F).
  - apply IH.
  - destruct (take cfg F) as [[e F1]|]; [|apply IH].
    rewrite IH. destruct (run_ops cfg ops1 F1) as [F2 out1].
    by destruct (run_ops cfg ops2 F2).
Qed.

Lemma offer_all_ops es F :
  run_ops cfg (map Offer es) F = (offer_all cfg es F, []).
Proof.
  revert F. induction es as [|e es IH]; intros F; simpl; [done|]. apply IH.
Qed.

Lemma offer_all_ok es F : frontier_ok cfg F → frontier_ok cfg (offer_all cfg es F).
Proof.
  revert F. induction es as [|e es IH]; intros F Hok; simpl; [done|].
  by apply IH, offer_ok.
Qed.

(** *** The orchestrator's use of the frontier *)

(** One transition changes the frontier by a take followed by offers, by
    offers alone, or not at all. *)
Lemma step_frontier_ops s :
  ∃ ops, frontier (step cfg s) = (run_ops cfg ops (frontier s)).1.
Proof.
  unfold step. destruct (phase s).
  - exists (map Offer (map (seed) (SEED_URLS cfg))). by rewrite offer_all_ops.
  - destruct (take cfg (frontier s)) as [[e F]|] eqn:Htake; [|by exists []].
    case_bool_decide.
    { exists [Take]. simpl. by rewrite Htake. }
    destruct (permit cfg _ _ _) as [now budget].
    destruct (isAllowed cfg (url e)); simpl.
    2: { exists [Take]. simpl. by rewrite Htake. }
    destruct (fr_error _).
    { exists [Take]. simpl. by rewrite Htake. }
    destruct (extract cfg _) as [[doc links]|].
    2: { exists [Take]. simpl. by rewrite Htake. }
    destruct (shouldIndex cfg now doc (registry s)) as [[] reg].
    + exists (Take :: map Offer (map (link_from e) links)).
      simpl. rewrite Htake. by rewrite offer_all_ops.
    + exists [Take]. simpl. by rewrite Htake.
  - by exists [].
  - by exists [].
Qed.

Lemma run_frontier_ops n reg0 now :
  ∃ ops, frontier (run cfg n reg0 now) = (run_ops cfg ops empty_frontier).1.
Proof.
  induction n as [|n [ops IH]]; [by exists []|].
  unfold run in *. simpl.
  destruct (step_frontier_ops (Nat.iter n (step cfg) (start reg0 now))) as [ops' Hstep].
  exists (ops ++ ops'). rewrite run_ops_app.
  rewrite Hstep, IH.
  destruct (run_ops cfg ops empty_frontier) as [F1 out1]. simpl.
  by destruct (run_ops cfg ops' F1).
Qed.

(** *** The page budget *)

Lemma step_fetched_bound s :
  (length (fetched s) ≤ MAX_PAGES cfg)%nat →
  (length (fetched (step cfg s)) ≤ MAX_PAGES cfg)%nat.
Proof.
  intros Hle. unfold step. destruct (phase s); try done.
  destruct (take cfg (frontier s)) as [[e F]|]; [|done].
  case_bool_decide as Hbudget; [done|].
  destruct (permit cfg _ _ _) as [now budget].
  assert (length (fetched s ++ [url e]) ≤ MAX_PAGES cfg)%nat as Hfetch
    by (rewrite length_app; simpl; lia).
  destruct (isAllowed cfg (url e)); simpl; [|done].
  destruct (fr_error _); [done|].
  destruct (extract cfg _) as [[doc links]|]; [|done].
  by destruct (shouldIndex cfg now doc (registry s)) as [[] reg].
Qed.

Lemma run_fetched_bound n reg0 now :
  (length (fetched (run cfg n reg0 now)) ≤ MAX_PAGES cfg)%nat.
Proof.
  induction n as [|n IH]; [simpl; lia|]. by apply step_fetched_bound.
Qed.

(** *** Every run ends *)

Lemma remove_key_length k l :
  k ∈ map (key cfg) l → S (length (remove_key cfg k l)) = length l.
Proof.
  induction l as [|x l IH]; simpl; [by intros ?%elem_of_nil|].
  case_bool_decide as Hk; [done|].
  intros [?|Hin]%elem_of_cons; [congruence|]. simpl. by rewrite IH.
Qed.

Lemma take_length F e F' :
  take cfg F = Some (e, F') → S (length (pending F')) = length (pending F).
Proof.
  unfold take. destruct (pending F) as [|e0 rest] eqn:Hp; [done|].
  intros [= <- <-].
  change (S (length (remove_key cfg (key cfg (shallowest e0 rest)) (e0 :: rest))) =
          length (e0 :: rest)).
  apply remove_key_length.
  apply list_elem_of_fmap. eexists. split; [done|]. apply shallowest_in.
Qed.

(** A transition from Running leaves the loop, or shortens the frontier
    without fetching, or fetches one page within the budget. *)
Lemma step_running s :
  phase s = Running →
  phase (step cfg s) = Draining
  ∨ (phase (step cfg s) = Running
     ∧ fetched (step cfg s) = fetched s
     ∧ (length (pending (frontier (step cfg s))) < length (pending (frontier s)))%nat)
  ∨ (phase (step cfg s) = Running
     ∧ (length (fetched s) < MAX_PAGES cfg)%nat
     ∧ length (fetched (step cfg s)) = S (length (fetched s))).
Proof.
  intros Hphase. unfold step. rewrite Hphase.
  destruct (take cfg (frontier s)) as [[e F]|] eqn:Htake; [|by left].
  apply take_length in Htake.
  case_bool_decide as Hbudget; [by left|].
  destruct (permit cfg _ _ _) as [now budget].
  assert (∀ s', phase s' = Running → fetched s' = fetched s ++ [url e] →
            phase s' = Running
            ∧ (length (fetched s) < MAX_PAGES cfg)%nat
            ∧ length (fetched s') = S (length (fetched s))) as Hfetch.
  { intros s' Hs' ->. rewrite length_app. simpl. split; [done|lia]. }
  destruct (isAllowed cfg (url e)); simpl.
  2: { right. left. split; [done|]. split; [done|]. simpl. lia. }
  right. right.
  destruct (fr_error _); [by apply Hfetch|].
  destruct (extract cfg _) as [[doc links]|]; [|by apply Hfetch].
  destruct (shouldIndex cfg now doc (registry s)) as [[] reg]; by apply Hfetch.
Qed.

Lemma draining_ends s : phase s = Draining → phase (step cfg (step cfg s)) = Done.
Proof.
  intros Hphase. assert (phase (step cfg s) = Done) as Hdone
    by (unfold step; by rewrite Hphase).
  unfold step at 1. by rewrite Hdone.
Qed.

Lemma running_ends (k m : nat) s :
  phase s = Running →
  (MAX_PAGES cfg - length (fetched s) ≤ k)%nat →
  (length (pending (frontier s)) ≤ m)%nat →
  ∃ n, phase (Nat.iter n (step cfg) s) = Done.
Proof.
  revert m s. induction k as [k IHk] using lt_wf_ind.
  intros m. induction m as [m IHm] using lt_wf_ind.
  intros s Hphase Hk Hm.
  destruct (step_running s Hphase) as [Hd | [(Hr & Hf & Hp) | (Hr & Hlt & Hf)]].
  - exists 3%nat. simpl. by apply draining_ends.
  - destruct (IHm (length (pending (frontier (step cfg s)))) ltac:(lia)
                (step cfg s) Hr ltac:(rewrite Hf; lia) ltac:(lia)) as [n Hn].
    exists (S n). by rewrite Nat.iter_succ_r.
  - destruct (IHk (MAX_PAGES cfg - length (fetched (step cfg s)))%nat ltac:(lia)
                (length (pending (frontier (step cfg s))))
                (step cfg s) Hr ltac:(lia) ltac:(lia)) as [n Hn].
    exists (S n). by rewrite Nat.iter_succ_r.
Qed.

(** Every run reaches Done. *)
Lemma run_ends reg0 now : ∃ n, phase (run cfg n reg0 now) = Done.
Proof.
  destruct (running_ends _ _ (step cfg (start reg0 now)) eq_refl
              (Nat.le_refl _) (Nat.le_refl _)) as [n Hn].
  exists (S n). unfold run. by rewrite Nat.iter_succ_r.
Qed.

(** *** The deduplicator *)

Lemma shouldIndex_verdict now doc reg :
  (shouldIndex cfg now doc reg).1 = true ↔ reg !! contentHash cfg doc = None.
Proof.
  unfold shouldIndex. by destruct (reg !! contentHash cfg doc).
Qed.

Lemma shouldIndex_registry now doc reg h :
  (shouldIndex cfg now doc reg).2 !! h = None ↔
    reg !! h = None ∧ h ≠ contentHash cfg doc.
Proof.
  unfold shouldIndex. destruct (reg !! contentHash cfg doc) as [t|] eqn:Hreg; simpl.
  - split; [|by intros [? _]]. intros Hh. split; [done|]. congruence.
  - rewrite lookup_insert_None. naive_solver.
Qed.

Lemma shouldIndex_each_length arrivals reg :
  length (shouldIndex_each cfg arrivals reg).1 = length arrivals.
Proof.
  revert reg. induction arrivals as [|[now doc] rest IH]; intros reg; simpl; [done|].
  destruct (shouldIndex cfg now doc reg) as [b reg'].
  specialize (IH reg'). destruct (shouldIndex_each cfg rest reg'). simpl in *.
  by rewrite IH.
Qed.

(** The verdict at each position: true exactly when the hash is neither in
    the registry the run started with nor carried by an earlier document. *)
Lemma shouldIndex_each_verdict arrivals reg (j : nat) t d :
  arrivals !! j = Some (t, d) →
  ∃ b, (shouldIndex_each cfg arrivals reg).1 !! j = Some b
       ∧ (b = true ↔
            reg !! contentHash cfg d = None
            ∧ first_with_hash cfg (contentHash cfg d) arrivals j).
Proof.
  revert reg j. induction arrivals as [|[now doc] rest IH]; intros reg j; [done|].
  simpl. destruct (shouldIndex cfg now doc reg) as [b reg'] eqn:Hs.
  destruct (shouldIndex_each cfg rest reg') as [bs reg''] eqn:Hrest.
  destruct j as [|j]; simpl.
  - intros [= -> ->]. exists b. split; [done|].
    replace b with (shouldIndex cfg t d reg).1 by by rewrite Hs.
    rewrite shouldIndex_verdict. split; [|by intros [? _]].
    intros Hreg. split; [done|]. intros i ? ? Hi. lia.
  - intros Hj. destruct (IH reg' j Hj) as (b' & Hb' & Hiff).
    rewrite Hrest in Hb'. exists b'. split; [done|].
    rewrite Hiff.
    replace reg' with (shouldIndex cfg now doc reg).2 by by rewrite Hs.
    rewrite shouldIndex_registry. unfold first_with_hash. split.
    + intros [[Hreg Hne] Hfirst]. split; [done|].
      intros [|i] t' d' Hi; simpl.
      * intros [= <- <-]. congruence.
      * apply Hfirst. lia.
    + intros [Hreg Hfirst]. split; [split; [done|]|].
      * intros Heq. by apply (Hfirst 0%nat now doc); [lia| |].
      * intros i t' d' Hi Hl. apply (Hfirst (S i) t' d'); [lia|done].
Qed.

Lemma shouldIndex_keeps now doc reg h :
  is_Some (reg !! h) → is_Some ((shouldIndex cfg now doc reg).2 !! h).
Proof.
  intros Hin. apply not_eq_None_Some. rewrite shouldIndex_registry.
  intros [Hnone _]. rewrite Hnone in Hin. by destruct Hin.
Qed.

(** A recorded timestamp is never overwritten. *)
Lemma shouldIndex_keeps_time now doc reg h t :
  reg !! h = Some t → (shouldIndex cfg now doc reg).2 !! h = Some t.
Proof.
  intros Hh. unfold shouldIndex.
  destruct (reg !! contentHash cfg doc) eqn:Hd; simpl; [done|].
  rewrite lookup_insert_ne; [done|]. congruence.
Qed.

Lemma shouldIndex_each_keeps_time arrivals reg h t :
  reg !! h = Some t → (shouldIndex_each cfg arrivals reg).2 !! h = Some t.
Proof.
  revert reg. induction arrivals as [|[now doc] rest IH]; intros reg Hin; simpl; [done|].
  pose proof (shouldIndex_keeps_time now doc reg h t Hin) as Hin'.
  destruct (shouldIndex cfg now doc reg) as [b reg'].
  specialize (IH reg' Hin'). by destruct (shouldIndex_each cfg rest reg').
Qed.

(** A hash absent from the registry stays absent while no document
    carries it. *)
Lemma shouldIndex_each_fresh arrivals reg h :
  reg !! h = None →
  first_with_hash cfg h arrivals (length arrivals) →
  (shouldIndex_each cfg arrivals reg).2 !! h = None.
Proof.
  revert reg. induction arrivals as [|[now doc] rest IH]; intros reg Hreg Hfirst; simpl; [done|].
  assert ((shouldIndex cfg now doc reg).2 !! h = None) as Hreg'.
  { rewrite shouldIndex_registry. split; [done|].
    intros ->. by apply (Hfirst 0%nat now doc); [simpl; lia| |]. }
  destruct (shouldIndex cfg now doc reg) as [b reg'].
  assert (first_with_hash cfg h rest (length rest)) as Hfirst'.
  { intros i t d Hi Hl. apply (Hfirst (S i) t d); [simpl; lia|done]. }
  specialize (IH reg' Hreg' Hfirst'). by destruct (shouldIndex_each cfg rest reg').
Qed.

(** The registry only grows. *)
Lemma shouldIndex_each_keeps arrivals reg h :
  is_Some (reg !! h) → is_Some ((shouldIndex_each cfg arrivals reg).2 !! h).
Proof.
  revert reg. induction arrivals as [|[now doc] rest IH]; intros reg Hin; simpl; [done|].
  pose proof (shouldIndex_keeps now doc reg h Hin) as Hin'.
  destruct (shouldIndex cfg now doc reg) as [b reg'].
  specialize (IH reg' Hin'). by destruct (shouldIndex_each cfg rest reg').
Qed.

(** Once a document with hash [h] has arrived, [h] is in the registry. *)
Lemma shouldIndex_each_registered arrivals reg (j : nat) t d :
  arrivals !! j = Some (t, d) →
  is_Some ((shouldIndex_each cfg arrivals reg).2 !! contentHash cfg d).
Proof.
  revert reg j. induction arrivals as [|[now doc] rest IH]; intros reg j; [done|].
  simpl. destruct j as [|j]; simpl.
  - intros [= -> ->].
    assert (is_Some ((shouldIndex cfg t d reg).2 !! contentHash cfg d)) as Hin.
    { apply not_eq_None_Some. rewrite shouldIndex_registry. by intros [_ ?]. }
    destruct (shouldIndex cfg t d reg) as [b reg'].
    pose proof (shouldIndex_each_keeps rest reg' _ Hin).
    by destruct (shouldIndex_each cfg rest reg').
  - intros Hj. destruct (shouldIndex cfg now doc reg) as [b reg'].
    specialize (IH reg' j Hj). by destruct (shouldIndex_each cfg rest reg').
Qed.

(** The first document with a hash the registry lacks records the time it
    arrived at. *)
Lemma shouldIndex_each_first_time arrivals reg (j : nat) t d :
  arrivals !! j = Some (t, d) →
  reg !! contentHash cfg d = None →
  first_with_hash cfg (contentHash cfg d) arrivals j →
  (shouldIndex_each cfg arrivals reg).2 !! contentHash cfg d = Some t.
Proof.
  revert reg j. induction arrivals as [|[now doc] rest IH]; intros reg j; [done|].
  simpl. destruct j as [|j]; simpl.
  - intros [= -> ->] Hreg _.
    assert ((shouldIndex cfg t d reg).2 !! contentHash cfg d = Some t) as Hin.
    { unfold shouldIndex. rewrite Hreg. simpl. apply lookup_insert_eq. }
    destruct (shouldIndex cfg t d reg) as [b reg'].
    pose proof (shouldIndex_each_keeps_time rest reg' _ _ Hin).
    by destruct (shouldIndex_each cfg rest reg').
  - intros Hj Hreg Hfirst.
    assert ((shouldIndex cfg now doc reg).2 !! contentHash cfg d = None) as Hreg'.
    { rewrite shouldIndex_registry. split; [done|].
      intros Heq. by apply (Hfirst 0%nat now doc); [lia| |]. }
    destruct (shouldIndex cfg now doc reg) as [b reg'].
    assert (first_with_hash cfg (contentHash cfg d) rest j) as Hfirst'.
    { intros i t' d' Hi Hl. apply (Hfirst (S i) t' d'); [lia|done]. }
    specialize (IH reg' j Hj Hreg' Hfirst').
    by destruct (shouldIndex_each cfg rest reg').
Qed.

Lemma passed_docs_kept arrivals reg :
  passed_docs cfg arrivals reg = kept (shouldIndex_each cfg arrivals reg).1 arrivals.
Proof.
  revert reg. induction arrivals as [|[now doc] rest IH]; intros reg; simpl; [done|].
  destruct (shouldIndex cfg now doc reg) as [b reg'].
  specialize (IH reg'). destruct (shouldIndex_each cfg rest reg') as [bs reg''].
  unfold kept in *. simpl in *. destruct b; simpl; by rewrite IH.
Qed.

(** The documents let through carry pairwise distinct hashes, none of
    which the registry had at the start. *)
Lemma passed_docs_distinct arrivals reg :
  NoDup (map (contentHash cfg) (passed_docs cfg arrivals reg))
  ∧ ∀ d, d ∈ passed_docs cfg arrivals reg → reg !! contentHash cfg d = None.
Proof.
  revert reg. induction arrivals as [|[now doc] rest IH]; intros reg; simpl.
  - split; [constructor|]. by intros d ?%elem_of_nil.
  - pose proof (shouldIndex_verdict now doc reg) as Hv.
    pose proof (shouldIndex_registry now doc reg) as Hr.
    destruct (shouldIndex cfg now doc reg) as [b reg']. simpl in *.
    destruct (IH reg') as [Hnd Hfresh]. destruct b.
    + split.
      * simpl. apply NoDup_cons. split; [|done].
        intros (d & Hd & Hin)%list_elem_of_fmap.
        apply Hfresh, Hr in Hin as [_ Hne]. congruence.
      * intros d [-> | Hin]%elem_of_cons; [by apply Hv|].
        by apply Hfresh, Hr in Hin as [? _].
    + split; [done|]. intros d Hin. by apply Hfresh, Hr in Hin as [? _].
Qed.

Lemma shouldIndex_each_snoc arrivals now doc reg :
  (shouldIndex_each cfg (arrivals ++ [(now, doc)]) reg).2 =
    (shouldIndex cfg now doc (shouldIndex_each cfg arrivals reg).2).2.
Proof.
  revert reg. induction arrivals as [|[t d] rest IH]; intros reg; simpl.
  - by destruct (shouldIndex cfg now doc reg).
  - destruct (shouldIndex cfg t d reg) as [b reg']. specialize (IH reg').
    destruct (shouldIndex_each cfg (rest ++ [(now, doc)]) reg').
    by destruct (shouldIndex_each cfg rest reg').
Qed.

Lemma passed_docs_snoc arrivals now doc reg :
  passed_docs cfg (arrivals ++ [(now, doc)]) reg =
    passed_docs cfg arrivals reg ++
      (if (shouldIndex cfg now doc (shouldIndex_each cfg arrivals reg).2).1
       then [doc] else []).
Proof.
  revert reg. induction arrivals as [|[t d] rest IH]; intros reg; simpl.
  - by destruct (shouldIndex cfg now doc reg) as [[] ?].
  - destruct (shouldIndex cfg t d reg) as [b reg']. specialize (IH reg').
    destruct (shouldIndex_each cfg rest reg') as [bs reg''].
    destruct b; simpl; by rewrite IH.
Qed.

(** In a run, the registry and the documents submitted are what
    [shouldIndex] makes of the documents examined so far. *)
Lemma step_dedup reg0 s :
  registry s = (shouldIndex_each cfg (examined s) reg0).2 →
  indexed s = passed_docs cfg (examined s) reg0 →
  registry (step cfg s) = (shouldIndex_each cfg (examined (step cfg s)) reg0).2
  ∧ indexed (step cfg s) = passed_docs cfg (examined (step cfg s)) reg0.
Proof.
  intros Hreg Hidx. unfold step. destruct (phase s); try done.
  destruct (take cfg (frontier s)) as [[e F]|]; [|done].
  case_bool_decide; [done|].
  destruct (permit cfg _ _ _) as [now budget].
  destruct (isAllowed cfg (url e)); simpl; [|done].
  destruct (fr_error _); [done|].
  destruct (extract cfg _) as [[doc links]|]; [|done].
  destruct (shouldIndex cfg now doc (registry s)) as [fresh reg] eqn:Hs.
  rewrite Hreg in Hs.
  destruct fresh; simpl; rewrite shouldIndex_each_snoc, passed_docs_snoc, Hs; simpl.
  - by rewrite Hidx.
  - by rewrite Hidx, app_nil_r.
Qed.

Lemma run_dedup n reg0 now :
  registry (run cfg n reg0 now) =
    (shouldIndex_each cfg (examined (run cfg n reg0 now)) reg0).2
  ∧ indexed (run cfg n reg0 now) =
      passed_docs cfg (examined (run cfg n reg0 now)) reg0.
Proof.
  induction n as [|n [IH1 IH2]]; [done|]. by apply step_dedup.
Qed.

(** *** The three properties *)

(** C6. In every run the number of fetches performed never exceeds
    MAX_PAGES. A transition fetches at most one page, and only while the
    budget is not used up. Reaching the budget is a normal end: the loop
    goes to Draining without fetching, the sink is flushed, and the run is
    Done, where it stays. Every run reaches Done. *)
Theorem page_budget_never_exceeded :
  (∀ n reg0 now, (length (fetched (run cfg n reg0 now)) ≤ MAX_PAGES cfg)%nat)
  ∧ (∀ s, fetched (step cfg s) = fetched s
          ∨ (phase s = Running
             ∧ (length (fetched s) < MAX_PAGES cfg)%nat
             ∧ ∃ u, fetched (step cfg s) = fetched s ++ [u]))
  ∧ (∀ s e F,
       phase s = Running →
       take cfg (frontier s) = Some (e, F) →
       (MAX_PAGES cfg ≤ length (fetched s))%nat →
       phase (step cfg s) = Draining
       ∧ fetched (step cfg s) = fetched s
       ∧ phase (step cfg (step cfg s)) = Done
       ∧ fetched (step cfg (step cfg s)) = fetched s
       ∧ sink (step cfg (step cfg s)) = flush cfg (sink s))
  ∧ (∀ s, phase s = Done → step cfg s = s)
  ∧ (∀ reg0 now, ∃ n, phase (run cfg n reg0 now) = Done).
Proof.
  split; [apply run_fetched_bound|]. split; [|split; [|split; [|apply run_ends]]].
  - intros s. unfold step. destruct (phase s) eqn:Hphase; try by left.
    destruct (take cfg (frontier s)) as [[e F]|]; [|by left].
    case_bool_decide as Hbudget; [by left|].
    destruct (permit cfg _ _ _) as [now budget].
    assert (∀ s', fetched s' = fetched s ++ [url e] →
              fetched s' = fetched s
              ∨ (Running = Running
                 ∧ (length (fetched s) < MAX_PAGES cfg)%nat
                 ∧ ∃ u, fetched s' = fetched s ++ [u])) as Hfetch.
    { intros s' Hs'. right. split; [done|]. split; [lia|]. by exists (url e). }
    destruct (isAllowed cfg (url e)); simpl; [|by left].
    destruct (fr_error _); [by apply Hfetch|].
    destruct (extract cfg _) as [[doc links]|]; [|by apply Hfetch].
    destruct (shouldIndex cfg now doc (registry s)) as [[] reg]; by apply Hfetch.
  - intros s e F Hphase Htake Hbudget.
    assert (step cfg s = enter Draining s F (sink s)) as ->.
    { unfold step. rewrite Hphase, Htake. by rewrite bool_decide_true. }
    done.
  - intros s Hphase. unfold step. by rewrite Hphase.
Qed.

(** C7. Under any sequence of offers and takes from the empty frontier,
    the entries returned by take have pairwise distinct normalized URLs,
    and the VisitedSet is the set of normalized URLs dequeued. No take
    returns a URL that was in the VisitedSet before it. An offer of an
    entry whose normalized URL is in the Frontier or in the VisitedSet
    returns the frontier unchanged. A crawl run uses its frontier through
    such a sequence only. *)
Theorem each_url_dequeued_at_most_once :
  (∀ ops, NoDup (map (key cfg) (run_ops cfg ops empty_frontier).2))
  ∧ (∀ ops, visited (run_ops cfg ops empty_frontier).1 =
            list_to_set (map (key cfg) (run_ops cfg ops empty_frontier).2))
  ∧ (∀ ops1 ops2 e,
       e ∈ (run_ops cfg ops2 (run_ops cfg ops1 empty_frontier).1).2 →
       key cfg e ∉ visited (run_ops cfg ops1 empty_frontier).1)
  ∧ (∀ e F,
       key cfg e ∈ map (key cfg) (pending F) ∨ key cfg e ∈ visited F →
       offer cfg e F = F)
  ∧ (∀ n reg0 now,
       ∃ ops, frontier (run cfg n reg0 now) = (run_ops cfg ops empty_frontier).1).
Proof.
  split; [|split; [|split; [|split]]].
  - intros ops. destruct (run_ops cfg ops empty_frontier) as [F out] eqn:Hrun.
    by apply run_ops_spec in Hrun as (_ & Hnd & _); [|apply empty_frontier_ok].
  - intros ops. destruct (run_ops cfg ops empty_frontier) as [F out] eqn:Hrun.
    apply run_ops_spec in Hrun as (_ & _ & _ & Hvis); [|apply empty_frontier_ok].
    simpl in *. rewrite Hvis. set_solver.
  - intros ops1 ops2 e.
    destruct (run_ops cfg ops1 empty_frontier) as [F1 out1] eqn:Hrun1.
    apply run_ops_spec in Hrun1 as (Hok & _); [|apply empty_frontier_ok]. simpl.
    destruct (run_ops cfg ops2 F1) as [F2 out2] eqn:Hrun2.
    apply run_ops_spec in Hrun2 as (_ & _ & Hout & _); [|done]. apply Hout.
  - apply offer_noop.
  - apply run_frontier_ops.
Qed.

(** C8. Let the documents of a run reach [shouldIndex] in some order, and
    let [h] be a content hash the registry lacks when the run starts.
    Among the documents whose content hashes to [h], [shouldIndex] returns
    true for the first and false for every later one; the first one's
    arrival puts [h] in the registry with its timestamp, where it stays.
    The documents submitted to the Index Sink are those with a true
    verdict, so they carry pairwise distinct hashes. *)
Theorem only_first_of_equal_content_is_indexed
    (arrivals : list (Z * Document)) (reg0 : gmap string Z) (h : string) :
  reg0 !! h = None →
  let verdicts := (shouldIndex_each cfg arrivals reg0).1 in
  let final := (shouldIndex_each cfg arrivals reg0).2 in
  length verdicts = length arrivals
  ∧ (∀ (j : nat) t d,
       arrivals !! j = Some (t, d) →
       contentHash cfg d = h →
       is_Some (final !! h)
       ∧ (first_with_hash cfg h arrivals j → final !! h = Some t)
       ∧ ∃ b, verdicts !! j = Some b
              ∧ (b = true ↔ first_with_hash cfg h arrivals j))
  ∧ passed_docs cfg arrivals reg0 = kept verdicts arrivals
  ∧ NoDup (map (contentHash cfg) (passed_docs cfg arrivals reg0))
  ∧ (∀ n now,
       indexed (run cfg n reg0 now) =
         passed_docs cfg (examined (run cfg n reg0 now)) reg0
       ∧ registry (run cfg n reg0 now) =
           (shouldIndex_each cfg (examined (run cfg n reg0 now)) reg0).2).
Proof.
  intros Hreg verdicts final.
  split; [apply shouldIndex_each_length|]. split; [|split; [|split]].
  - intros j t d Hj Hh. subst h. split; [by eapply shouldIndex_each_registered|].
    split; [by apply shouldIndex_each_first_time|].
    destruct (shouldIndex_each_verdict arrivals reg0 j t d Hj) as (b & Hb & Hiff).
    exists b. split; [done|]. rewrite Hiff. naive_solver.
  - apply passed_docs_kept.
  - apply passed_docs_distinct.
  - intros n now. by destruct (run_dedup n reg0 now).
Qed.

End CrawlerFacts.

Section SampleRun.

Import Crawler.

Lemma page_budget_never_exceeded_witness :
  let s := run sample_setup 3 ∅ 0 in
  (length (fetched s) ≤ MAX_PAGES sample_setup)%nat
  ∧ fetched s = ["http://a.test/"; "http://a.test/b"]
  ∧ phase (step sample_setup s) = Draining
  ∧ fetched (step sample_setup s) = fetched s
  ∧ phase (step sample_setup (step sample_setup s)) = Done
  ∧ fetched (step sample_setup (step sample_setup s)) = fetched s
  ∧ sink (step sample_setup (step sample_setup s)) = flush sample_setup (sink s).
Proof.
  cbv zeta. split.
  { apply (proj1 (page_budget_never_exceeded sample_setup) 3%nat ∅ 0%Z). }
  split; [reflexivity|].
  eapply (proj1 (proj2 (proj2 (page_budget_never_exceeded sample_setup)))).
  - reflexivity.
  - vm_compute. reflexivity.
  - vm_compute. constructor.
Defined.

Lemma each_url_dequeued_at_most_once_witness :
  let a := seed "http://a.test/" in
  let b := seed "http://a.test/b" in
  let ops := [Offer a; Offer b; Take; Offer a; Offer b; Take; Take] in
  map url (run_ops sample_setup ops empty_frontier).2 =
    ["http://a.test/"; "http://a.test/b"]
  ∧ NoDup (map (key sample_setup) (run_ops sample_setup ops empty_frontier).2).
Proof.
  cbv zeta. split; [reflexivity|].
  apply (proj1 (each_url_dequeued_at_most_once sample_setup)).
Defined.

Lemma only_first_of_equal_content_is_indexed_witness :
  let cfg := sample_setup in
  let arrivals := sample_arrivals in
  let verdicts := (shouldIndex_each cfg arrivals ∅).1 in
  let final := (shouldIndex_each cfg arrivals ∅).2 in
  verdicts = [true; true; false]
  ∧ length verdicts = length arrivals
  ∧ (∀ (j : nat) t d,
       arrivals !! j = Some (t, d) →
       contentHash cfg d = "x" →
       is_Some (final !! "x")
       ∧ (first_with_hash cfg "x" arrivals j → final !! "x" = Some t)
       ∧ ∃ b, verdicts !! j = Some b
              ∧ (b = true ↔ first_with_hash cfg "x" arrivals j))
  ∧ passed_docs cfg arrivals ∅ = kept verdicts arrivals
  ∧ NoDup (map (contentHash cfg) (passed_docs cfg arrivals ∅))
  ∧ (∀ n now,
       indexed (run cfg n ∅ now) = passed_docs cfg (examined (run cfg n ∅ now)) ∅
       ∧ registry (run cfg n ∅ now) =
           (shouldIndex_each cfg (examined (run cfg n ∅ now)) ∅).2).
Proof.
  cbv zeta. split; [reflexivity|].
  apply (only_first_of_equal_content_is_indexed sample_setup sample_arrivals ∅ "x").
  reflexivity.
Defined.

End SampleRun.

(* ===================================================================== *)
(** * Further properties of the Go server *)
(* ===================================================================== *)

Section ServerFacts.

Import Backend.
Local Open Scope Z_scope.

(** X1. The three shapes of a search response: the status code, the success
    flag and the error text always agree; [Total] is the number of results
    and a failure carries none; one call to the engine is made unless the
    request is refused with 400, and then none. *)
Theorem search_response_is_consistent client config c :
  let run := io_run (search_handler client config c) in
  let r := obj run.1 in
  (code run.1 = 200 ∨ code run.1 = 400 ∨ code run.1 = 500)
  ∧ (Success r = true ↔ code run.1 = 200)
  ∧ (Success r = true ↔ Error r = "")
  ∧ (Success r = false → Results r = [])
  ∧ Total r = Z.of_nat (length (Results r))
  ∧ (code run.1 = 400 ↔ Query_ c "q" = "")
  ∧ (code run.1 = 400 → run.2 = [] ∧ Query r = "")
  ∧ (code run.1 ≠ 400 →
     run.2 = [search_call (IndexName config) (Query_ c "q") (limit_of c)]
     ∧ Query r = Query_ c "q").
Proof.
  rewrite search_handler_run. cbv zeta.
  case_bool_decide as Hq; simpl.
  - repeat split; try done; auto.
  - destruct (client _) as [res|err]; simpl; repeat split; try done; auto.
Qed.

(** X2. The search route reads the request through the first [q] and the
    first [limit] only, and the configuration through the engine's URL
    and key, which make the client, and the index name: repeated values,
    other parameters and the port change neither the response nor the
    call to the engine. *)
Theorem search_reads_first_q_and_limit
    (newClient : Server.NewClient) config config' c c' :
  MeilisearchURL config = MeilisearchURL config' →
  MeilisearchKey config = MeilisearchKey config' →
  IndexName config = IndexName config' →
  GetQuery (query_pairs c) "q" = GetQuery (query_pairs c') "q" →
  GetQuery (query_pairs c) "limit" = GetQuery (query_pairs c') "limit" →
  io_run (Server.search_route newClient config c) =
    io_run (Server.search_route newClient config' c').
Proof.
  intros Hurl Hkey Hidx Hq Hlimit. unfold Server.search_route. cbv zeta.
  rewrite !search_handler_run.
  unfold limit_of, Query_, DefaultQuery. by rewrite Hurl, Hkey, Hidx, Hq, Hlimit.
Qed.

Lemma search_reads_first_q_and_limit_witness :
  let newClient : Server.NewClient := λ host key,
    if bool_decide (host = "http://meilisearch:7700" ∧ key = "masterKey123")
    then answering mixed_hits else failing "connection refused" in
  code (io_run (Server.search_route newClient (loadConfig ∅)
                  (request [("limit", "5"); ("q", "go")]))).1 = 200
  ∧ io_run (Server.search_route newClient (loadConfig ∅)
              (request [("q", "go"); ("offset", "40"); ("q", "stop"); ("limit", "5");
                        ("limit", "7")])) =
      io_run (Server.search_route newClient (loadConfig (<["PORT" := "9090"]> ∅))
                (request [("limit", "5"); ("q", "go")])).
Proof.
  cbv zeta. split; [reflexivity|].
  apply search_reads_first_q_and_limit; reflexivity.
Defined.

(** A hit that is a JSON object free of NaN and infinities always
    decodes. *)
Lemma decode_hit_object m :
  json.encodable (VMap m) = true → decode_hit (VMap m) = Some m.
Proof. intros He. apply decode_hit_Some. auto. Qed.

Lemma results_from_objects n i hits :
  Forall (λ hit, ∃ m, hit = VMap m ∧ json.encodable hit = true) hits →
  length (results_from n i hits) = length hits
  ∧ ∀ (k : nat) m, hits !! k = Some (VMap m) →
      results_from n i hits !! k = Some (result_of (n - i - Z.of_nat k) m).
Proof.
  intros Hall. revert i.
  induction Hall as [|hit rest (m & -> & He) _ IH]; intros i; simpl; [done|].
  rewrite (decode_hit_object m He). destruct (IH (i + 1)) as [IHlen IHnth].
  split; [simpl; by rewrite IHlen|].
  intros [|k] m'; simpl.
  - intros [= <-]. do 2 f_equal. lia.
  - intros Hk. rewrite (IHnth k m' Hk). do 2 f_equal. lia.
Qed.

Lemma results_from_length_le n i hits :
  (length (results_from n i hits) ≤ length hits)%nat.
Proof.
  revert i. induction hits as [|hit rest IH]; intros i; simpl; [done|].
  specialize (IH (i + 1)). destruct (decode_hit hit); simpl; lia.
Qed.

Lemma results_from_full n i hits :
  length (results_from n i hits) = length hits →
  Forall (λ hit, is_Some (decode_hit hit)) hits.
Proof.
  revert i. induction hits as [|hit rest IH]; intros i; simpl; [by constructor|].
  pose proof (results_from_length_le n (i + 1) rest) as Hle.
  destruct (decode_hit hit) as [doc|] eqn:Hd; simpl; [|lia].
  intros [= Hlen]. constructor; [by eexists|]. by eapply IH.
Qed.

(** X3. No hit that is a document is lost. When every hit the engine returns
    is a JSON object (free of NaN and infinities), the search returns as
    many results as hits, and the result at each position is built from
    the hit at that position, with score [n - k]. In general there are
    never more results than hits, and as many exactly when every hit
    decodes. *)
Theorem object_hits_are_all_returned client indexName query limit log answer :
  client (search_call indexName query limit) = Ok answer →
  let hits := meilisearch.Hits answer in
  let n := Z.of_nat (length hits) in
  ∃ results,
    (performSearch client indexName query limit log).1 = Ok results
    ∧ (length results ≤ length hits)%nat
    ∧ (length results = length hits ↔
         Forall (λ hit, is_Some (decode_hit hit)) hits)
    ∧ (Forall (λ hit, ∃ m, hit = VMap m ∧ json.encodable hit = true) hits →
       length results = length hits
       ∧ ∀ (k : nat) m, hits !! k = Some (VMap m) →
           results !! k = Some (result_of (n - Z.of_nat k) m)).
Proof.
  intros Hok hits n. subst hits n. eexists. rewrite performSearch_run, Hok. simpl.
  split; [reflexivity|]. generalize (meilisearch.Hits answer). intros hits.
  split; [apply results_from_length_le|]. split; [split|].
  - apply results_from_full.
  - intros Hall. rewrite results_from_length.
    f_equal. induction Hall as [|hit rest Hhit _ IH]; [done|].
    rewrite filter_cons_True by done. by rewrite IH.
  - intros Hall.
    destruct (results_from_objects (Z.of_nat (length hits)) 0 hits Hall) as [Hlen Hnth].
    split; [done|]. intros k m Hk. rewrite (Hnth k m Hk). do 2 f_equal. lia.
Qed.

Lemma object_hits_are_all_returned_witness :
  let hits := [page "a" "Alpha"; page "b" "Beta"] in
  ∃ results,
    (performSearch (answering hits) "documents" "go" 20 []).1 = Ok results
    ∧ (length results ≤ length hits)%nat
    ∧ (length results = length hits ↔
         Forall (λ hit, is_Some (decode_hit hit)) hits)
    ∧ (Forall (λ hit, ∃ m, hit = VMap m ∧ json.encodable hit = true) hits →
       length results = length hits
       ∧ ∀ (k : nat) m, hits !! k = Some (VMap m) →
           results !! k = Some (result_of (Z.of_nat (length hits) - Z.of_nat k) m)).
Proof.
  apply (object_hits_are_all_returned (answering [page "a" "Alpha"; page "b" "Beta"])
           "documents" "go" 20 []
           {| meilisearch.Hits := [page "a" "Alpha"; page "b" "Beta"] |}).
  reflexivity.
Defined.

(** X4. The two status routes. [/stats] answers 200 exactly when [GetStats]
    succeeds for the configured index, and then reports that index's name
    and the engine's two figures unchanged; when [GetStats] fails it
    answers 500 with the one key [error], so a reply never carries both an
    error and figures. The reply depends on the engine only through the
    statistics of the index the search handler queries. [/health] answers
    200 whatever the engine does and names the configured engine URL. *)
Theorem status_routes (getStats : Server.StatsClient) config :
  let r := Server.stats_handler getStats config in
  (Server.reply_code r = 200 ∨ Server.reply_code r = 500)
  ∧ (Server.reply_code r = 200 ↔ ∃ stats, getStats (IndexName config) = Ok stats)
  ∧ (is_Some (Server.reply_body r !! "error") ↔ Server.reply_code r = 500)
  ∧ (is_Some (Server.reply_body r !! "document_count") ↔ Server.reply_code r = 200)
  ∧ (∀ stats, getStats (IndexName config) = Ok stats →
       Server.reply_body r !! "index_name" = Some (Server.HString (IndexName config))
       ∧ Server.reply_body r !! "document_count" =
           Some (Server.HInt (Server.NumberOfDocuments stats))
       ∧ Server.reply_body r !! "is_indexing" =
           Some (Server.HBool (Server.IsIndexing stats)))
  ∧ (∀ err, getStats (IndexName config) = Fail err →
       dom (Server.reply_body r) = {[ "error" ]}
       ∧ Server.reply_body r !! "error" =
           Some (Server.HString ("Failed to get stats: " +:+ error_text err)))
  ∧ (∀ getStats' : Server.StatsClient,
       getStats' (IndexName config) = getStats (IndexName config) →
       Server.stats_handler getStats' config = r)
  ∧ (∀ client c call,
       call ∈ (io_run (search_handler client config c)).2 →
       meilisearch.call_index call = IndexName config)
  ∧ Server.reply_code (Server.health_handler config) = 200
  ∧ Server.reply_body (Server.health_handler config) !! "status" =
      Some (Server.HString "healthy")
  ∧ Server.reply_body (Server.health_handler config) !! "meilisearch" =
      Some (Server.HString (MeilisearchURL config)).
Proof.
  cbv zeta. unfold Server.stats_handler.
  destruct (getStats (IndexName config)) as [stats|err] eqn:Hstats; simpl.
  - split; [by left|]. split; [split; [by eexists|done]|].
    split; [split; [by intros [? ?]|done]|].
    split; [split; [done|by eexists]|].
    split; [by intros ? [= <-]|]. split; [done|].
    split; [by intros getStats' ->|]. split; [|done].
    intros client c call Hin.
    revert Hin. rewrite search_handler_run. cbv zeta.
    case_bool_decide; simpl; [by intros ?%elem_of_nil|].
    by intros ->%list_elem_of_singleton.
  - split; [by right|]. split; [split; [done|by intros [? ?]]|].
    split; [split; [done|by eexists]|].
    split; [split; [by intros [? ?]|done]|].
    split; [done|]. split.
    { intros ? [= <-]. split; [|done]. by rewrite dom_insert_L, dom_empty_L, union_empty_r_L. }
    split; [by intros getStats' ->|]. split; [|done].
    intros client c call Hin.
    revert Hin. rewrite search_handler_run. cbv zeta.
    case_bool_decide; simpl; [by intros ?%elem_of_nil|].
    by intros ->%list_elem_of_singleton.
Qed.

(** X5. Starting the server. Whatever the connection test says, [main] goes
    on to run the router, once and last, on ":" followed by the PORT of
    the environment, or ":8080" when PORT is unset or empty: the address
    is never a bare ":". A failed test only adds a warning to the log. *)
Theorem main_always_serves env (health : option error) :
  let events := Server.main env health in
  let port := Port (loadConfig env) in
  last events = Some (Server.Run (":" +:+ port))
  ∧ filter (λ e, Server.is_run e) events = [Server.Run (":" +:+ port)]
  ∧ env_or_default env "PORT" "8080" port
  ∧ (Server.Run ":" ∉ events)
  ∧ (∀ err, health = Some err ↔
       Server.Log ("Warning: Could not connect to Meilisearch: " +:+ error_text err)
         ∈ events)
  ∧ (health = None ↔
       Server.Log "Successfully connected to Meilisearch" ∈ events).
Proof.
  cbv zeta. unfold Server.main, Server.testMeilisearchConnection.
  pose proof (getEnv_env_or_default env "PORT" "8080" ltac:(done)) as Hport.
  fold (getEnv env "PORT" "8080") in *.
  change (Port (loadConfig env)) with (getEnv env "PORT" "8080").
  set (port := getEnv env "PORT" "8080") in *.
  assert (port ≠ "") as Hne by apply Hport.
  split; [done|]. split.
  { by destruct health. }
  split; [done|]. split.
  { intros Hin. repeat (apply elem_of_cons in Hin as [Hin|Hin]);
      try (by destruct health); [|by apply elem_of_nil in Hin].
    injection Hin as Hin. by destruct port. }
  split.
  - intros err. split.
    + intros ->. left.
    + intros Hin. repeat (apply elem_of_cons in Hin as [Hin|Hin]).
      * destruct health as [err'|]; [|done]. injection Hin as Hin.
        destruct err, err'. simpl in *. by simplify_eq.
      * done.
      * done.
      * by apply elem_of_nil in Hin.
  - split.
    + intros ->. left.
    + intros Hin. repeat (apply elem_of_cons in Hin as [Hin|Hin]).
      * by destruct health.
      * done.
      * done.
      * by apply elem_of_nil in Hin.
Qed.

End ServerFacts.

(* ===================================================================== *)
(** * Further properties of the serverless handler *)
(* ===================================================================== *)

Section HandlerFacts.

Import Api.
Local Open Scope Z_scope.

(** The two early answers of the handler. *)
Lemma handler_options client req :
  method req = "OPTIONS" →
  io_run (handler client req) = (inl {| status := 200; body := None |}, []).
Proof.
  unfold io_run, handler. by intros ->.
Qed.

Lemma handler_other_method client req :
  method req ≠ "OPTIONS" → method req ≠ "GET" →
  io_run (handler client req) =
    (respond 405 (failure "Method not allowed" None), []).
Proof.
  unfold io_run, handler. intros Ho Hg.
  rewrite bool_decide_false by done. by rewrite bool_decide_true.
Qed.

(** X6. Only a GET request can reach the engine. An OPTIONS request is
    answered 200 with no body and any other method 405 "Method not
    allowed", whatever the query says, and neither places a call. *)
Theorem only_get_reaches_engine client req :
  let run := io_run (handler client req) in
  (method req = "OPTIONS" → run = (inl {| status := 200; body := None |}, []))
  ∧ (method req ≠ "OPTIONS" → method req ≠ "GET" →
     run = (respond 405 (failure "Method not allowed" None), []))
  ∧ (run.2 ≠ [] → method req = "GET").
Proof.
  cbv zeta. split; [apply handler_options|]. split; [apply handler_other_method|].
  unfold io_run, handler.
  case_bool_decide; [done|]. case_bool_decide as Hg; [done|].
  intros _. destruct (decide (method req = "GET")); [done|]. by destruct Hg.
Qed.

(** X7. A GET request in which [q] is given more than once reaches the
    handler as an array: it is answered 500 "Search failed" and the engine
    is not called, whatever the values are. *)
Theorem repeated_q_is_server_error client req l :
  method req = "GET" →
  param req "q" = QArray l →
  io_run (handler client req) =
    (respond 500 (failure "Search failed" (Some "query.trim is not a function")), []).
Proof.
  intros Hget Hq. rewrite handler_get by done. by rewrite Hq.
Qed.

Lemma repeated_q_is_server_error_witness :
  io_run (handler (answering [page "a" "Alpha"])
            (get_request [("q", QArray ["go"; "stop"])])) =
    (respond 500 (failure "Search failed" (Some "query.trim is not a function")), []).
Proof.
  apply (repeated_q_is_server_error _ _ ["go"; "stop"]); reflexivity.
Defined.

(** X8. Every request gets a response whose parts agree. The status is 200,
    400, 405 or 500; only OPTIONS has no body; in a body, success is true
    exactly when the status is 200, exactly when there is a result list,
    and exactly when there is no error text; total is the length of the
    result list. A result list is sent exactly when one call was placed
    and the engine answered it. *)
Theorem handler_response_is_consistent client req :
  let run := io_run (handler client req) in
  ∃ resp,
    run.1 = inl resp
    ∧ (status resp = 200 ∨ status resp = 400 ∨ status resp = 405 ∨ status resp = 500)
    ∧ (body resp = None ↔ method req = "OPTIONS")
    ∧ (length run.2 ≤ 1)%nat
    ∧ ∀ b, body resp = Some b →
        (success b = true ↔ status resp = 200)
        ∧ (success b = true ↔ is_Some (results b))
        ∧ (success b = true ↔ error b = None)
        ∧ (∀ rs, results b = Some rs → total b = Some (Z.of_nat (length rs)))
        ∧ (success b = true ↔ ∃ call answer, run.2 = [call] ∧ client call = inl answer).
Proof.
  cbv zeta.
  destruct (decide (method req = "OPTIONS")) as [Ho|Ho].
  { rewrite (handler_options client req Ho). eexists.
    split; [done|]. split; [by left|]. split; [done|]. split; [simpl; lia|]. done. }
  destruct (decide (method req = "GET")) as [Hg|Hg].
  2: { rewrite (handler_other_method client req Ho Hg). eexists.
       split; [done|]. split; [auto|]. split; [done|]. split; [simpl; lia|].
       intros b [= <-]. simpl. repeat split; try done; try by intros [? ?].
       by intros (? & ? & ? & ?). }
  assert (∀ code msg detail,
    let run := (respond code (failure msg detail), @nil Call) in
    code ≠ 200 → (code = 200 ∨ code = 400 ∨ code = 405 ∨ code = 500) →
    ∃ resp, run.1 = inl resp
      ∧ (status resp = 200 ∨ status resp = 400 ∨ status resp = 405 ∨ status resp = 500)
      ∧ (body resp = None ↔ method req = "OPTIONS")
      ∧ (length run.2 ≤ 1)%nat
      ∧ ∀ b, body resp = Some b →
          (success b = true ↔ status resp = 200)
          ∧ (success b = true ↔ is_Some (results b))
          ∧ (success b = true ↔ error b = None)
          ∧ (∀ rs, results b = Some rs → total b = Some (Z.of_nat (length rs)))
          ∧ (success b = true ↔
               ∃ call answer, run.2 = [call] ∧ client call = inl answer)) as Hfail.
  { intros code msg detail run Hcode Hcodes. eexists. split; [done|].
    split; [done|]. split; [done|]. split; [simpl; lia|].
    intros b [= <-]. simpl. repeat split; try done; try by intros [? ?].
    by intros (? & ? & ? & ?). }
  rewrite handler_get by done.
  destruct (param req "q") as [|q|l]; [apply Hfail; auto| |apply Hfail; auto].
  case_bool_decide; [apply Hfail; auto|]. cbv zeta.
  destruct (client _) as [answer|e] eqn:Hcall.
  - eexists. split; [done|]. split; [by left|]. split; [done|]. split; [simpl; lia|].
    intros b [= <-]. simpl. repeat split; try done; eauto.
    by intros rs [= <-].
  - eexists. split; [done|]. split; [auto|]. split; [done|]. split; [simpl; lia|].
    intros b [= <-]. simpl. repeat split; try done; try by intros [? ?].
    intros (call & answer & [= <-] & Hans). congruence.
Qed.

Lemma js_or_truthy a b : truthy b = true → truthy (js_or a b) = true.
Proof. unfold js_or. by destruct (truthy a) eqn:Ha. Qed.

Lemma js_or_keeps a b : truthy a = true → js_or a b = a.
Proof. unfold js_or. by intros ->. Qed.

Lemma js_or_falls_back a b : truthy a = false → js_or a b = b.
Proof. unfold js_or. by intros ->. Qed.

(** X9. The fields of a formatted result. The id, the title and the url are
    never missing or empty: a hit's own value is kept when it is truthy,
    and "result-" with the position, "Untitled" and "#" stand in
    otherwise; the content is the hit's own or the empty string. When no
    hit has an id of its own, the ids of the results are pairwise
    distinct. *)
Theorem formatted_results_have_keys (n : nat) (docs : list (gmap string JsValue)) :
  (∀ (i : nat) hit,
     let r := format_result n i hit in
     truthy (id r) = true ∧ truthy (title r) = true ∧ truthy (url r) = true
     ∧ (truthy (get hit "id") = true → id r = get hit "id")
     ∧ (truthy (get hit "title") = true → title r = get hit "title")
     ∧ (truthy (get hit "url") = true → url r = get hit "url")
     ∧ (truthy (get hit "content") = true → content r = get hit "content")
     ∧ (truthy (get hit "id") = false → id r = JString ("result-" +:+ pretty i))
     ∧ (truthy (get hit "title") = false → title r = JString "Untitled")
     ∧ (truthy (get hit "url") = false → url r = JString "#")
     ∧ (truthy (get hit "content") = false → content r = JString ""))
  ∧ (Forall (λ hit, truthy (get hit "id") = false) docs →
     NoDup (map id (imap (format_result n) docs))).
Proof.
  split.
  - intros i hit. cbv zeta. unfold format_result. simpl.
    split; [by apply js_or_truthy|]. split; [by apply js_or_truthy|].
    split; [by apply js_or_truthy|].
    repeat split; (apply js_or_keeps || apply js_or_falls_back).
  - intros Hall. apply NoDup_alt. intros i j v.
    rewrite !list_lookup_fmap, !list_lookup_imap.
    destruct (docs !! i) as [hi|] eqn:Hi; [|done].
    destruct (docs !! j) as [hj|] eqn:Hj; [|done]. simpl.
    rewrite Forall_forall in Hall.
    rewrite !js_or_falls_back
      by (apply Hall; eapply list_elem_of_lookup_2; eassumption).
    intros [= <-] [= Heq]. simpl in Heq.
    symmetry. by apply (inj pretty).
Qed.

Lemma formatted_results_have_keys_witness :
  let docs : list (gmap string JsValue) := [∅; page "" "Alpha"; ∅] in
  map id (imap (format_result 3) docs) =
    [JString "result-0"; JString "result-1"; JString "result-2"]
  ∧ NoDup (map id (imap (format_result 3) docs)).
Proof.
  cbv zeta. split; [reflexivity|].
  apply (proj2 (formatted_results_have_keys 3 [∅; page "" "Alpha"; ∅])).
  repeat constructor.
Defined.

(** X10. The client's settings against the Go server's. Both read
    MEILISEARCH_URL and MEILISEARCH_KEY and take an empty value for an
    unset one; they agree whenever a variable is set and not empty, and
    differ only in what stands in otherwise. Neither setting is ever
    empty. *)
Theorem client_options_follow_environment (env : gmap string string) :
  let o := ApiClient.options env in
  let c := Backend.loadConfig env in
  ApiClient.host o ≠ "" ∧ ApiClient.apiKey o ≠ ""
  ∧ (∀ v, env !! "MEILISEARCH_URL" = Some v → v ≠ "" →
       ApiClient.host o = v ∧ Backend.MeilisearchURL c = v)
  ∧ (∀ v, env !! "MEILISEARCH_KEY" = Some v → v ≠ "" →
       ApiClient.apiKey o = v ∧ Backend.MeilisearchKey c = v)
  ∧ (env !! "MEILISEARCH_URL" = None ∨ env !! "MEILISEARCH_URL" = Some "" →
       ApiClient.host o = "https://your-meilisearch-instance.meilisearch.io"
       ∧ Backend.MeilisearchURL c = "http://meilisearch:7700")
  ∧ (env !! "MEILISEARCH_KEY" = None ∨ env !! "MEILISEARCH_KEY" = Some "" →
       ApiClient.apiKey o = "your-api-key"
       ∧ Backend.MeilisearchKey c = "masterKey123").
Proof.
  cbv zeta. unfold ApiClient.options, ApiClient.env_or, Backend.loadConfig. simpl.
  split; [|split]; [| |split; [|split; [|split]]].
  - destruct (env !! "MEILISEARCH_URL") as [v|]; [|done]. by case_bool_decide.
  - destruct (env !! "MEILISEARCH_KEY") as [v|]; [|done]. by case_bool_decide.
  - intros v Hv Hne. rewrite Hv. rewrite bool_decide_false by done.
    split; [done|]. by apply getEnv_set.
  - intros v Hv Hne. rewrite Hv. rewrite bool_decide_false by done.
    split; [done|]. by apply getEnv_set.
  - intros Hv. rewrite (getEnv_unset _ _ _ Hv). by destruct Hv as [-> | ->].
  - intros Hv. rewrite (getEnv_unset _ _ _ Hv). by destruct Hv as [-> | ->].
Qed.

End HandlerFacts.

(* ===================================================================== *)
(** * The two servers side by side *)
(* ===================================================================== *)

Section SideBySide.

Local Open Scope Z_scope.

(** *** [parseInt] against [strconv.Atoi] *)

(** A sign or a digit starts no white space. *)
Lemma trimStart_sign_or_digit c rest :
  Backend.strconv.is_digit c = true ∨ c = "+"%char ∨ c = "-"%char →
  Api.trimStart (String c rest) = String c rest.
Proof.
  intros Hc. unfold Api.trimStart. cbn [String.length Api.skip_white].
  enough (Api.strip_any Api.white_space (String c rest) = None) as -> by done.
  assert (∀ a, Backend.strconv.is_digit a = false → a ≠ "+"%char → a ≠ "-"%char →
               Ascii.eqb a c = false) as Hne.
  { intros a Ha Hp Hm. apply Ascii.eqb_neq. intros ->.
    destruct Hc as [Hc | [Hc | Hc]]; congruence. }
  unfold Api.white_space. cbn [map app Api.utf8 string_of_list_ascii Api.strip_any].
  repeat (cbn [Api.strip_prefix]; rewrite Hne by done).
  done.
Qed.

Lemma digit_value_digit c :
  Backend.strconv.is_digit c = true →
  Api.digit_value c = Some (Z.of_nat (nat_of_ascii c) - 48).
Proof.
  unfold Backend.strconv.is_digit, Api.digit_value. by intros ->.
Qed.

(** On a string of digits [read_digits] reads the whole string. *)
Lemma read_digits_decimal acc seen body v :
  Backend.decimal acc body = Some v →
  Api.read_digits 10 acc seen body =
    match body with
    | EmptyString => if seen then Some acc else None
    | _ => Some v
    end.
Proof.
  revert acc seen. induction body as [|c rest IH]; intros acc seen; simpl; [done|].
  destruct (Backend.strconv.is_digit c) eqn:Hd; [|done].
  rewrite (digit_value_digit c Hd). intros Hv.
  assert ((Z.of_nat (nat_of_ascii c) - 48 <? 10) = true) as ->.
  { unfold Backend.strconv.is_digit in Hd. lia. }
  rewrite (IH _ true Hv). destruct rest; [|done].
  simpl in Hv. by injection Hv as <-.
Qed.

Lemma decimal_head acc c rest v :
  Backend.decimal acc (String c rest) = Some v → Backend.strconv.is_digit c = true.
Proof. simpl. by destruct (Backend.strconv.is_digit c). Qed.

(** A string of digits has no hexadecimal prefix. *)
Lemma no_hex_prefix acc body v :
  Backend.decimal acc body = Some v →
  match body with
  | String "0" (String "x" rest) | String "0" (String "X" rest) => (16, rest)
  | _ => (10, body)
  end = (10, body).
Proof.
  destruct body as [|c0 [|c1 rest]]; intros Hv.
  - done.
  - by destruct c0 as [[] [] [] [] [] [] [] []].
  - assert (Backend.strconv.is_digit c1 = true) as Hd1.
    { simpl in Hv. destruct (Backend.strconv.is_digit c0); [|done].
      by eapply decimal_head. }
    destruct c0 as [[] [] [] [] [] [] [] []]; try done;
      destruct c1 as [[] [] [] [] [] [] [] []]; done.
Qed.

(** The sign that [parseInt] reads off a string that starts with a sign or
    a digit. *)
Lemma sign_split c rest :
  Backend.strconv.is_digit c = true ∨ c = "+"%char ∨ c = "-"%char →
  match String c rest with
  | String "-" rest' => (-1, rest')
  | String "+" rest' => (1, rest')
  | _ => (1, String c rest)
  end =
  (if Ascii.eqb c "-" then -1 else 1,
   if Ascii.eqb c "+" || Ascii.eqb c "-" then rest else String c rest).
Proof.
  intros [Hd | [-> | ->]]; [|done|done].
  destruct c as [[] [] [] [] [] [] [] []]; done.
Qed.

Lemma prefix_minus c rest :
  String.prefix "-" (String c rest) = Ascii.eqb c "-".
Proof.
  cbn [String.prefix]. destruct (ascii_dec "-" c) as [<-|Hc].
  - by destruct rest.
  - symmetry. apply Ascii.eqb_neq. congruence.
Qed.

(** Every integer literal is read by [parseInt] as the Number for the
    integer written. *)
Lemma parseInt_integer_literal s n :
  Backend.integer_literal s = Some n →
  Api.parseInt s = Api.Number_of (String.prefix "-" s) n.
Proof.
  unfold Backend.integer_literal, Api.parseInt.
  destruct s as [|c rest]; [done|]. rewrite prefix_minus.
  destruct (Ascii.eqb c "+" || Ascii.eqb c "-") eqn:Hsign.
  - assert (c = "+"%char ∨ c = "-"%char) as Hc.
    { apply orb_true_iff in Hsign as [?%Ascii.eqb_eq | ?%Ascii.eqb_eq]; auto. }
    rewrite trimStart_sign_or_digit by auto.
    rewrite sign_split by auto. rewrite Hsign.
    destruct rest as [|c0 body]; [done|].
    destruct (Backend.decimal 0 (String c0 body)) as [v|] eqn:Hv; [|done].
    rewrite (no_hex_prefix _ _ _ Hv), (read_digits_decimal _ false _ _ Hv).
    simpl. intros [= <-]. destruct Hc as [-> | ->]; simpl; f_equal; lia.
  - destruct (Backend.decimal 0 (String c rest)) as [v|] eqn:Hv; [|done].
    pose proof (decimal_head _ _ _ _ Hv) as Hd.
    rewrite trimStart_sign_or_digit by auto.
    rewrite sign_split by auto. rewrite Hsign.
    rewrite (no_hex_prefix _ _ _ Hv), (read_digits_decimal _ false _ _ Hv).
    apply orb_false_iff in Hsign as [_ Hminus]. rewrite Hminus.
    simpl. intros [= <-]. f_equal. lia.
Qed.

(** *** Integers as Numbers *)

Lemma digits2_pos_iter (p k : positive) :
  Z.pos (digits2_pos (Pos.iter xO p k)) = Z.pos (digits2_pos p) + Z.pos k.
Proof.
  induction k as [|k IH] using Pos.peano_ind.
  - simpl. lia.
  - rewrite Pos.iter_succ. cbn [digits2_pos]. lia.
Qed.

Lemma digits2_pos_small (p : positive) (d : Z) :
  0 ≤ d → Z.pos p < 2 ^ d → Z.pos (digits2_pos p) ≤ d.
Proof.
  revert d. induction p as [p IH|p IH|]; intros d Hd Hp; cbn [digits2_pos].
  - assert (d ≠ 0) by (intros ->; simpl in Hp; lia).
    rewrite Pos2Z.inj_succ. specialize (IH (d - 1)).
    replace d with (Z.succ (d - 1)) in Hp by lia. rewrite Z.pow_succ_r in Hp by lia.
    lia.
  - assert (d ≠ 0) by (intros ->; simpl in Hp; lia).
    rewrite Pos2Z.inj_succ. specialize (IH (d - 1)).
    replace d with (Z.succ (d - 1)) in Hp by lia. rewrite Z.pow_succ_r in Hp by lia.
    lia.
  - assert (d ≠ 0) by (intros ->; simpl in Hp; lia). lia.
Qed.

(** Rounding leaves a mantissa of 53 bits as it is. *)
Lemma binary_round_aux_exact sx (m : positive) e :
  Z.pos (digits2_pos m) = 53 → -1074 ≤ e ≤ 971 →
  binary_round_aux prec emax sx (Z.pos m) e loc_Exact = S754_finite sx m e.
Proof.
  intros Hd He. unfold binary_round_aux, shr_fexp, fexp. cbn [Zdigits2].
  rewrite Hd.
  replace (Z.max (53 + e - prec) (SpecFloat.emin prec emax) - e) with 0
    by (unfold prec, emax, SpecFloat.emin; lia).
  cbn [shr shr_record_of_loc shr_m loc_of_shr_record round_nearest_even Zdigits2].
  rewrite Hd.
  replace (Z.max (53 + e - prec) (SpecFloat.emin prec emax) - e) with 0
    by (unfold prec, emax, SpecFloat.emin; lia).
  cbn [shr shr_m].
  destruct (Z.leb_spec e (emax - prec)) as [_|Hgt]; [done|].
  unfold prec, emax in Hgt. lia.
Qed.

(** An integer below 2^53 is only shifted into place. *)
Lemma binary_round_small sx (p : positive) :
  Z.pos p < 2 ^ 53 →
  ∃ (m : positive) k,
    binary_round prec emax sx p 0 = S754_finite sx m (- k)
    ∧ 0 ≤ k ≤ 52 ∧ Z.pos m = Z.pos p * 2 ^ k
    ∧ Z.pos (digits2_pos m) = 53.
Proof.
  intros Hp. pose proof (digits2_pos_small p 53 ltac:(lia) Hp) as Hd.
  unfold binary_round, shl_align, fexp.
  replace (Z.max (Z.pos (digits2_pos p) + 0 - prec) (SpecFloat.emin prec emax) - 0)
    with (Z.pos (digits2_pos p) - 53)
    by (unfold prec, emax, SpecFloat.emin; lia).
  replace (Z.max (Z.pos (digits2_pos p) + 0 - prec) (SpecFloat.emin prec emax))
    with (Z.pos (digits2_pos p) - 53)
    by (unfold prec, emax, SpecFloat.emin; lia).
  destruct (Z.pos (digits2_pos p) - 53) as [|k|k] eqn:Hk; [|lia|].
  - exists p, 0. rewrite binary_round_aux_exact by lia.
    split; [done|]. split; [lia|]. split; [lia|]. lia.
  - exists (Pos.iter xO p k), (Z.pos k).
    pose proof (digits2_pos_iter p k) as Hdk.
    rewrite binary_round_aux_exact by lia.
    split; [done|]. split; [lia|]. split; [|lia].
    change (Pos.iter xO p k) with (shift_pos k p).
    rewrite shift_pos_correct, Z.pow_pos_fold. lia.
Qed.

(** Below 2^53 in size every integer is a Number of its own: nothing is
    lost in [Number_of]. *)
Lemma integer_of_Number_of negative (n : Z) :
  - 2 ^ 53 < n < 2 ^ 53 → Api.integer_of (Api.Number_of negative n) = Some n.
Proof.
  intros Hn. unfold Api.integer_of, Api.Number_of.
  destruct n as [|p|p]; cbn [binary_normalize].
  - by destruct negative.
  - destruct (binary_round_small false p) as (m & k & -> & Hk & Hm & Hd); [lia|].
    rewrite Prim2SF_SF2Prim.
    2: { cbn [SpecFloat.valid_binary]. unfold bounded, canonical_mantissa, fexp.
         rewrite Hd. unfold prec, emax, SpecFloat.emin.
         apply andb_true_iff. split; [apply Z.eqb_eq|apply Z.leb_le]; lia. }
    destruct (Z.leb_spec 0 (- k)) as [H0|H0].
    + assert (k = 0) as -> by lia. f_equal. simpl in *. lia.
    + rewrite Z.opp_involutive, Hm, Z.mod_mul, Z.div_mul by lia. done.
  - destruct (binary_round_small true p) as (m & k & -> & Hk & Hm & Hd); [lia|].
    rewrite Prim2SF_SF2Prim.
    2: { cbn [SpecFloat.valid_binary]. unfold bounded, canonical_mantissa, fexp.
         rewrite Hd. unfold prec, emax, SpecFloat.emin.
         apply andb_true_iff. split; [apply Z.eqb_eq|apply Z.leb_le]; lia. }
    destruct (Z.leb_spec 0 (- k)) as [H0|H0].
    + assert (k = 0) as -> by lia. f_equal. simpl in *. lia.
    + rewrite Z.opp_involutive.
      replace (Z.neg m) with (- Z.pos p * 2 ^ k) by lia.
      rewrite Z.mod_mul, Z.div_mul by lia. f_equal.
Qed.

Lemma trim_nonempty q : Api.trim q ≠ "" → q ≠ "".
Proof. by intros Hq ->. Qed.

(** *** The same request, the same call *)

(** X11. For a query that is not blank and a limit that is absent or an integer
    literal fitting 64 bits, the Go server (with the index name left at
    "documents") and the serverless handler each place exactly one call,
    with the same index, the same query text as given and the same
    highlighting and cropping options. The limit of the serverless call
    is the Go limit as a Number, the nearest double: the same integer
    whenever the limit is below 2^53 in size, and a rounded one
    possibly beyond. *)
Theorem servers_place_the_same_call
    (goClient : Backend.meilisearch.Client) (jsClient : Api.Client)
    config c req q :
  Backend.IndexName config = "documents" →
  Api.method req = "GET" →
  Backend.GetQuery (Backend.query_pairs c) "q" = Some q →
  Api.param req "q" = Api.QString q →
  Api.trim q ≠ "" →
  (Backend.GetQuery (Backend.query_pairs c) "limit" = None
     ∧ Api.param req "limit" = Api.QUndefined)
  ∨ (∃ s n, Backend.GetQuery (Backend.query_pairs c) "limit" = Some s
            ∧ Api.param req "limit" = Api.QString s
            ∧ Backend.int64_literal s = Some n) →
  ∃ g j,
    (Backend.io_run (Backend.search_handler goClient config c)).2 = [g]
    ∧ (Api.io_run (Api.handler jsClient req)).2 = [j]
    ∧ Backend.meilisearch.call_index g = Api.call_index j
    ∧ Backend.meilisearch.call_query g = q
    ∧ Api.call_query j = q
    ∧ (∃ negative,
         Api.limit (Api.call_params j) =
           Api.Number_of negative
             (Backend.meilisearch.Limit (Backend.meilisearch.call_request g)))
    ∧ (- 2 ^ 53 < Backend.meilisearch.Limit (Backend.meilisearch.call_request g) < 2 ^ 53 →
       Api.integer_of (Api.limit (Api.call_params j)) =
         Some (Backend.meilisearch.Limit (Backend.meilisearch.call_request g)))
    ∧ Backend.meilisearch.AttributesToHighlight (Backend.meilisearch.call_request g) =
        Api.attributesToHighlight (Api.call_params j)
    ∧ Backend.meilisearch.HighlightPreTag (Backend.meilisearch.call_request g) =
        Api.highlightPreTag (Api.call_params j)
    ∧ Backend.meilisearch.HighlightPostTag (Backend.meilisearch.call_request g) =
        Api.highlightPostTag (Api.call_params j)
    ∧ Backend.meilisearch.AttributesToCrop (Backend.meilisearch.call_request g) =
        Api.attributesToCrop (Api.call_params j)
    ∧ Backend.meilisearch.CropLength (Backend.meilisearch.call_request g) =
        Api.cropLength (Api.call_params j)
    ∧ Backend.meilisearch.ShowMatchesPosition (Backend.meilisearch.call_request g) =
        Api.showMatchesPosition (Api.call_params j)
    ∧ Backend.meilisearch.AttributesToRetrieve (Backend.meilisearch.call_request g) =
        Api.attributesToRetrieve (Api.call_params j).
Proof.
  intros Hidx Hget Hgq Hjq Htrim Hlimit.
  pose proof (trim_nonempty q Htrim) as Hq.
  eexists _, _. rewrite search_handler_run, handler_get by done. cbv zeta.
  unfold Backend.Query_. rewrite Hgq, Hjq. simpl.
  rewrite !bool_decide_false by done. simpl.
  split; [reflexivity|]. split; [reflexivity|]. simpl.
  split; [done|]. split; [done|]. split; [done|].
  assert (∃ negative,
            Api.parseInt (Api.limit_ToString (Api.param req "limit")) =
              Api.Number_of negative (Backend.limit_of c)) as [negative Hnumber].
  { unfold Backend.limit_of, Backend.DefaultQuery.
    destruct Hlimit as [[-> ->] | (s & n & -> & -> & Hs)]; simpl; [by exists false|].
    pose proof (Atoi_int64_literal s) as Hatoi. rewrite Hs in Hatoi. rewrite Hatoi.
    exists (String.prefix "-" s). apply parseInt_integer_literal.
    unfold Backend.int64_literal in Hs.
    destruct (Backend.integer_literal s) as [m|]; [|done].
    by destruct (_ && _); simplify_eq. }
  rewrite Hnumber. split; [by exists negative|]. split; [|done].
  apply integer_of_Number_of.
Qed.

Lemma servers_place_the_same_call_witness :
  let c := Backend.request [("q", " rocq prover "); ("limit", "-007")] in
  let req := Api.get_request
               [("q", Api.QString " rocq prover "); ("limit", Api.QString "-007")] in
  Api.parseInt "-007" = (-7)%float
  ∧ Api.parseInt "9007199254740993" = 9007199254740992%float
  ∧ ∃ g j,
    (Backend.io_run (Backend.search_handler (Backend.failing "down")
       (Backend.loadConfig ∅) c)).2 = [g]
    ∧ (Api.io_run (Api.handler (Api.failing "down") req)).2 = [j]
    ∧ Backend.meilisearch.call_index g = Api.call_index j
    ∧ Backend.meilisearch.call_query g = " rocq prover "
    ∧ Api.call_query j = " rocq prover "
    ∧ (∃ negative,
         Api.limit (Api.call_params j) =
           Api.Number_of negative
             (Backend.meilisearch.Limit (Backend.meilisearch.call_request g)))
    ∧ (- 2 ^ 53 < Backend.meilisearch.Limit (Backend.meilisearch.call_request g) < 2 ^ 53 →
       Api.integer_of (Api.limit (Api.call_params j)) =
         Some (Backend.meilisearch.Limit (Backend.meilisearch.call_request g)))
    ∧ Backend.meilisearch.AttributesToHighlight (Backend.meilisearch.call_request g) =
        Api.attributesToHighlight (Api.call_params j)
    ∧ Backend.meilisearch.HighlightPreTag (Backend.meilisearch.call_request g) =
        Api.highlightPreTag (Api.call_params j)
    ∧ Backend.meilisearch.HighlightPostTag (Backend.meilisearch.call_request g) =
        Api.highlightPostTag (Api.call_params j)
    ∧ Backend.meilisearch.AttributesToCrop (Backend.meilisearch.call_request g) =
        Api.attributesToCrop (Api.call_params j)
    ∧ Backend.meilisearch.CropLength (Backend.meilisearch.call_request g) =
        Api.cropLength (Api.call_params j)
    ∧ Backend.meilisearch.ShowMatchesPosition (Backend.meilisearch.call_request g) =
        Api.showMatchesPosition (Api.call_params j)
    ∧ Backend.meilisearch.AttributesToRetrieve (Backend.meilisearch.call_request g) =
        Api.attributesToRetrieve (Api.call_params j).
Proof.
  cbv zeta. split; [reflexivity|]. split; [reflexivity|].
  apply (servers_place_the_same_call (Backend.failing "down") (Api.failing "down")
           (Backend.loadConfig ∅)
           (Backend.request [("q", " rocq prover "); ("limit", "-007")])
           (Api.get_request
              [("q", Api.QString " rocq prover "); ("limit", Api.QString "-007")])
           " rocq prover ").
  - reflexivity.
  - reflexivity.
  - reflexivity.
  - reflexivity.
  - vm_compute. discriminate.
  - right. exists "-007", (-7). repeat split; reflexivity.
Defined.

(** *** Where the two servers part *)

(** X12. A query of white space only. The Go server does not trim: it sends
    the query to the engine as it is. The serverless handler refuses it
    with 400 and calls nothing. *)
Theorem blank_query_divides_servers
    (goClient : Backend.meilisearch.Client) (jsClient : Api.Client)
    config c req q :
  q ≠ "" →
  Api.trim q = "" →
  Backend.GetQuery (Backend.query_pairs c) "q" = Some q →
  Api.method req = "GET" →
  Api.param req "q" = Api.QString q →
  (Backend.io_run (Backend.search_handler goClient config c)).2 =
    [Backend.search_call (Backend.IndexName config) q (Backend.limit_of c)]
  ∧ Backend.code (Backend.io_run (Backend.search_handler goClient config c)).1 ≠ 400
  ∧ Api.io_run (Api.handler jsClient req) =
      (Api.respond 400 (Api.failure Api.q_required None), []).
Proof.
  intros Hq Htrim Hgq Hget Hjq.
  rewrite search_handler_run, handler_get by done. cbv zeta.
  unfold Backend.Query_. rewrite Hgq, Hjq. simpl.
  rewrite bool_decide_false by done. rewrite bool_decide_true by done.
  split; [done|]. split; [|done]. simpl. by destruct (goClient _).
Qed.

Lemma blank_query_divides_servers_witness :
  let c := Backend.request [("q", "  ")] in
  let req := Api.get_request [("q", Api.QString "  ")] in
  (Backend.io_run (Backend.search_handler (Backend.answering [])
     (Backend.loadConfig ∅) c)).2 =
    [Backend.search_call (Backend.IndexName (Backend.loadConfig ∅)) "  "
       (Backend.limit_of c)]
  ∧ Backend.code (Backend.io_run (Backend.search_handler (Backend.answering [])
       (Backend.loadConfig ∅) c)).1 ≠ 400
  ∧ Api.io_run (Api.handler (Api.answering []) req) =
      (Api.respond 400 (Api.failure Api.q_required None), []).
Proof.
  apply (blank_query_divides_servers (Backend.answering []) (Api.answering [])
           (Backend.loadConfig ∅) (Backend.request [("q", "  ")])
           (Api.get_request [("q", Api.QString "  ")]) "  ").
  - discriminate.
  - reflexivity.
  - reflexivity.
  - reflexivity.
  - reflexivity.
Defined.



(** X14. No empty query reaches the engine. Every call the Go server places
    has a non-empty query and goes to the configured index. Every call
    the serverless handler places has a query that is not blank, which is
    the request's [q] as given, untrimmed, and goes to "documents". *)
Theorem no_empty_query_reaches_engine :
  (∀ client config c call,
     call ∈ (Backend.io_run (Backend.search_handler client config c)).2 →
     Backend.meilisearch.call_query call ≠ ""
     ∧ Backend.meilisearch.call_query call = Backend.Query_ c "q"
     ∧ Backend.meilisearch.call_index call = Backend.IndexName config)
  ∧ (∀ client req call,
       call ∈ (Api.io_run (Api.handler client req)).2 →
       Api.trim (Api.call_query call) ≠ ""
       ∧ Api.call_query call ≠ ""
       ∧ Api.param req "q" = Api.QString (Api.call_query call)
       ∧ Api.call_index call = "documents").
Proof.
  split.
  - intros client config c call [Hq ->]%search_handler_call. by simpl.
  - intros client req call (q & Hq & Htrim & -> & _)%handler_call. simpl.
    split; [done|]. split; [by apply trim_nonempty|]. done.
Qed.

End SideBySide.

(* ===================================================================== *)
(** * Properties of [trim] *)
(* ===================================================================== *)

Section TrimFacts.

Import Api.

(** *** Strings *)

Lemma string_app_cons a s t : String a s +:+ t = String a (s +:+ t).
Proof. reflexivity. Qed.

Lemma string_app_nil_l s : "" +:+ s = s.
Proof. reflexivity. Qed.

Lemma string_app_nil_r s : s +:+ "" = s.
Proof. induction s as [|a s IH]; [done|]. by rewrite string_app_cons, IH. Qed.

Lemma string_app_assoc s1 s2 s3 : (s1 +:+ s2) +:+ s3 = s1 +:+ (s2 +:+ s3).
Proof. induction s1 as [|a s1 IH]; [done|]. by rewrite !string_app_cons, IH. Qed.

Lemma string_length_app s1 s2 :
  String.length (s1 +:+ s2) = String.length s1 + String.length s2.
Proof.
  induction s1 as [|a s1 IH]; [done|]. rewrite string_app_cons. simpl. by rewrite IH.
Qed.

Lemma rev_app_spec s1 s2 : String.rev_app s1 s2 = String.rev s1 +:+ s2.
Proof.
  unfold String.rev. revert s2.
  induction s1 as [|a s1 IH]; intros s2; simpl; [done|].
  rewrite (IH (String a s2)), (IH (String a "")).
  by rewrite string_app_assoc.
Qed.

Lemma rev_cons a s : String.rev (String a s) = String.rev s +:+ String a "".
Proof. unfold String.rev at 1. simpl. apply rev_app_spec. Qed.

Lemma rev_app s1 s2 : String.rev (s1 +:+ s2) = String.rev s2 +:+ String.rev s1.
Proof.
  induction s1 as [|a s1 IH].
  - by rewrite string_app_nil_l, string_app_nil_r.
  - by rewrite string_app_cons, !rev_cons, IH, string_app_assoc.
Qed.

Lemma rev_involutive s : String.rev (String.rev s) = s.
Proof.
  induction s as [|a s IH]; [done|].
  by rewrite rev_cons, rev_app, IH.
Qed.

(** *** Stripping white space *)

Lemma strip_prefix_Some p s r : strip_prefix p s = Some r ↔ s = p +:+ r.
Proof.
  revert s. induction p as [|a p IH]; intros s; simpl.
  - rewrite string_app_nil_l. split; [by intros [= ->]|by intros ->].
  - rewrite string_app_cons. destruct s as [|b s]; [done|].
    destruct (Ascii.eqb a b) eqn:Hab.
    + apply Ascii.eqb_eq in Hab as ->. rewrite IH. split; [by intros ->|by intros [= ->]].
    + apply Ascii.eqb_neq in Hab. split; [done|]. intros [= ? _]. congruence.
Qed.

Lemma strip_any_Some ws s r :
  strip_any ws s = Some r → ∃ p, p ∈ ws ∧ s = p +:+ r.
Proof.
  induction ws as [|p ws IH]; simpl; [done|].
  destruct (strip_prefix p s) as [r'|] eqn:Hp.
  - intros [= <-]. exists p. split; [left|]. by apply strip_prefix_Some.
  - intros (p' & Hin & Hs)%IH. exists p'. split; [by right|done].
Qed.

Lemma strip_any_None ws s :
  strip_any ws s = None ↔ ∀ p r, p ∈ ws → s ≠ p +:+ r.
Proof.
  induction ws as [|p ws IH]; simpl.
  - split; [|done]. by intros _ p r ?%elem_of_nil.
  - destruct (strip_prefix p s) as [r'|] eqn:Hp.
    + split; [done|]. intros Hall. apply strip_prefix_Some in Hp.
      by destruct (Hall p r' ltac:(left)).
    + rewrite IH. split.
      * intros Hall p' r [-> | Hin]%elem_of_cons; [|by apply Hall].
        intros Hs%strip_prefix_Some. congruence.
      * intros Hall p' r Hin. apply Hall. by right.
Qed.

(** What [skip_white] returns is what is left of the string after a
    prefix. *)
Lemma skip_white_suffix ws fuel s : ∃ p, s = p +:+ skip_white ws fuel s.
Proof.
  revert s. induction fuel as [|fuel IH]; intros s; simpl; [by exists ""|].
  destruct (strip_any ws s) as [r|] eqn:Hs; [|by exists ""].
  apply strip_any_Some in Hs as (p & _ & ->).
  destruct (IH r) as [p' Hr]. exists (p +:+ p').
  by rewrite string_app_assoc, <- Hr.
Qed.

(** With fuel for every character, nothing is left to strip. *)
Lemma skip_white_done ws fuel s :
  Forall (λ p, p ≠ "") ws →
  String.length s ≤ fuel →
  strip_any ws (skip_white ws fuel s) = None.
Proof.
  intros Hws. revert s. induction fuel as [|fuel IH]; intros s Hlen; simpl.
  - destruct s; [|simpl in Hlen; lia].
    apply strip_any_None. intros p r Hin Hs.
    rewrite Forall_forall in Hws. apply (Hws p Hin). by destruct p.
  - destruct (strip_any ws s) as [r|] eqn:Hs; [|done].
    apply IH. apply strip_any_Some in Hs as (p & Hin & ->).
    rewrite Forall_forall in Hws. specialize (Hws p Hin).
    rewrite string_length_app in Hlen. destruct p; [done|]. simpl in Hlen. lia.
Qed.

Lemma skip_white_id ws fuel s : strip_any ws s = None → skip_white ws fuel s = s.
Proof. intros Hs. destruct fuel; simpl; [done|]. by rewrite Hs. Qed.

Lemma white_space_nonempty : Forall (λ p, p ≠ "") white_space.
Proof. unfold white_space. simpl. repeat constructor; discriminate. Qed.

Lemma white_space_rev_nonempty : Forall (λ p, p ≠ "") (map String.rev white_space).
Proof. unfold white_space. simpl. repeat constructor; discriminate. Qed.

(** *** [trim] *)

Lemma trimStart_done s : strip_any white_space (trimStart s) = None.
Proof. apply skip_white_done; [apply white_space_nonempty|done]. Qed.

(** [trimEnd] keeps a prefix of the string, to which no white space can
    be stripped from the end. *)
Lemma trimEnd_prefix s : ∃ p, s = trimEnd s +:+ p.
Proof.
  unfold trimEnd.
  destruct (skip_white_suffix (map String.rev white_space)
              (String.length (String.rev s)) (String.rev s)) as [p Hp].
  exists (String.rev p).
  rewrite <- rev_app, <- Hp. by rewrite rev_involutive.
Qed.

Lemma trimEnd_done s :
  strip_any (map String.rev white_space) (String.rev (trimEnd s)) = None.
Proof.
  unfold trimEnd. rewrite rev_involutive.
  apply skip_white_done; [apply white_space_rev_nonempty|done].
Qed.

(** A trimmed string has no white space left at either end. *)
Lemma trim_done s :
  strip_any white_space (trim s) = None
  ∧ strip_any (map String.rev white_space) (String.rev (trim s)) = None.
Proof.
  unfold trim. split; [|apply trimEnd_done].
  apply strip_any_None. intros p r Hin Heq.
  destruct (trimEnd_prefix (trimStart s)) as [tail Htail].
  pose proof (trimStart_done s) as Hstart.
  rewrite strip_any_None in Hstart.
  apply (Hstart p (r +:+ tail) Hin).
  rewrite Htail at 1. by rewrite Heq, string_app_assoc.
Qed.

(** Trimming twice is trimming once. *)
Lemma trim_idempotent s : trim (trim s) = trim s.
Proof.
  destruct (trim_done s) as [Hstart Hend].
  unfold trim at 1.
  assert (trimStart (trim s) = trim s) as -> by by apply skip_white_id.
  unfold trimEnd. rewrite skip_white_id by done. apply rev_involutive.
Qed.

End TrimFacts.

(* ===================================================================== *)
(** * Properties of the front end *)
(* ===================================================================== *)

Section FrontendFacts.

Import Frontend.

(** *** SearchResults.tsx *)

(** X15. The text shown for a result's content. It is the content itself up to
    300 code units; beyond that it is the first 300 code units followed
    by three dots, 303 code units in all, so it is never longer than 303
    but is longer than the content when that has 301 or 302 code units.
    The first 300 code units shown are always those of the content, and
    shortening what is shown changes nothing. *)
Theorem snippet_is_bounded (content : list N) :
  length (snippet content) ≤ 303
  ∧ (length content ≤ 300 → snippet content = content)
  ∧ (300 < length content →
     snippet content = take 300 content ++ [46; 46; 46]%N
     ∧ length (snippet content) = 303)
  ∧ take 300 (snippet content) = take 300 content
  ∧ (length content < length (snippet content) ↔
       length content = 301 ∨ length content = 302)
  ∧ snippet (snippet content) = snippet content.
Proof.
  unfold snippet.
  destruct (300 <? length content) eqn:Hlen.
  - apply Nat.ltb_lt in Hlen.
    assert (length (take 300 content ++ [46; 46; 46]%N) = 303) as Hshown.
    { rewrite length_app, length_take. cbn [length]. lia. }
    rewrite Hshown.
    assert ((300 <? 303) = true) as -> by done.
    split; [lia|]. split; [lia|]. split; [done|]. split; [|split; [lia|]].
    + rewrite take_app_le by (rewrite length_take; lia).
      rewrite take_take. f_equal.
    + rewrite take_app_le by (rewrite length_take; lia).
      rewrite take_take. by replace (300 `min` 300) with 300 by lia.
  - apply Nat.ltb_ge in Hlen. rewrite (proj2 (Nat.ltb_ge _ _) Hlen).
    split; [lia|]. split; [done|]. split; [lia|]. split; [done|]. split; [lia|done].
Qed.

(** *** App.tsx *)



(** *** SearchBar.tsx and App.tsx together, and the servers behind them *)

(** X17. A submission of the search form. A blank input changes nothing and
    requests nothing. Any other input is searched once, trimmed: the
    request carries the trimmed text and the query line shows it. The
    text submitted is never refused for a missing query: given as [q], the
    serverless handler and the Go server each answer with a status other
    than 400 and call the engine once with exactly that text. *)
Theorem submitted_query_is_never_refused (encodeURIComponent : string → string)
    (fetch : string → Fetched) input (st : AppState) :
  let out := submit encodeURIComponent fetch input st in
  (Api.trim input = "" → out = {| in_flight := None; final := st; requests := [] |})
  ∧ (Api.trim input ≠ "" →
     requests out = ["/api/search?q=" +:+ encodeURIComponent (Api.trim input)]
     ∧ query (final out) = Api.trim input
     ∧ loading (final out) = false)
  ∧ (∀ q, handleSubmit input = Some q →
       (∀ (jsClient : Api.Client) req,
          Api.method req = "GET" →
          Api.param req "q" = Api.QString q →
          ∃ resp call,
            Api.io_run (Api.handler jsClient req) = (inl resp, [call])
            ∧ Api.status resp ≠ 400%Z
            ∧ Api.call_query call = q)
       ∧ (∀ (goClient : Backend.meilisearch.Client) config c,
            Backend.GetQuery (Backend.query_pairs c) "q" = Some q →
            ∃ call,
              (Backend.io_run (Backend.search_handler goClient config c)).2 = [call]
              ∧ Backend.code (Backend.io_run (Backend.search_handler goClient config c)).1
                  ≠ 400%Z
              ∧ Backend.meilisearch.call_query call = q)).
Proof.
  cbv zeta. unfold submit, handleSubmit.
  case_bool_decide as Hblank.
  - split; [done|]. split; [done|]. by intros q.
  - split; [done|].
    assert (Api.trim (Api.trim input) ≠ "") as Htrim by by rewrite trim_idempotent.
    split.
    { intros _. unfold handleSearch. by rewrite bool_decide_false. }
    intros q [= <-]. split.
    + intros jsClient req Hget Hq. rewrite handler_get by done. rewrite Hq.
      rewrite bool_decide_false by done. cbv zeta.
      destruct (jsClient _); by eexists _, _.
    + intros goClient config c Hq. rewrite search_handler_run. cbv zeta.
      unfold Backend.Query_. rewrite Hq. simpl.
      rewrite bool_decide_false by by apply trim_nonempty.
      eexists. split; [done|]. split; [|done]. by destruct (goClient _).
Qed.

Lemma submitted_query_is_never_refused_witness :
  let st := {| results := Wire.Arr []; loading := false; query := "" |} in
  let encodeURIComponent := λ s : string, s in
  let out := submit encodeURIComponent (λ _, Threw) "  rocq  " st in
  Api.trim "  rocq  " = "rocq"
  ∧ (Api.trim "  rocq  " = "" → out = {| in_flight := None; final := st; requests := [] |})
  ∧ (Api.trim "  rocq  " ≠ "" →
     requests out = ["/api/search?q=" +:+ encodeURIComponent (Api.trim "  rocq  ")]
     ∧ query (final out) = Api.trim "  rocq  "
     ∧ loading (final out) = false)
  ∧ (∀ q, handleSubmit "  rocq  " = Some q →
       (∀ (jsClient : Api.Client) req,
          Api.method req = "GET" →
          Api.param req "q" = Api.QString q →
          ∃ resp call,
            Api.io_run (Api.handler jsClient req) = (inl resp, [call])
            ∧ Api.status resp ≠ 400%Z
            ∧ Api.call_query call = q)
       ∧ (∀ (goClient : Backend.meilisearch.Client) config c,
            Backend.GetQuery (Backend.query_pairs c) "q" = Some q →
            ∃ call,
              (Backend.io_run (Backend.search_handler goClient config c)).2 = [call]
              ∧ Backend.code (Backend.io_run (Backend.search_handler goClient config c)).1
                  ≠ 400%Z
              ∧ Backend.meilisearch.call_query call = q)).
Proof.
  cbv zeta. split; [reflexivity|].
  apply (submitted_query_is_never_refused (λ s, s) (λ _, Threw) "  rocq  "
           {| results := Wire.Arr []; loading := false; query := "" |}).
Defined.

(** *** The Go server's response as the page reads it *)

(** X18. The body the Go server writes for a search, and what the page makes
    of it. [success] is always written; [results] and [total] are written
    exactly when there is a result, [error] exactly when the status is not
    200, [query] exactly when it is not 400. So a search that succeeds
    with no hit is answered by the two members [success] and [query]
    alone. The query is echoed as the encoder writes it: unchanged when
    it is ASCII, with U+FFFD for every byte that is not UTF-8. From any of
    these bodies the page takes exactly the results of the response, each
    with its five fields under the keys [id], [title], [content], [url]
    and [score]. *)
Theorem go_body_as_the_page_reads_it
    (client : Backend.meilisearch.Client) config c :
  let resp := (Backend.io_run (Backend.search_handler client config c)).1 in
  let r := Backend.obj resp in
  let body := Wire.encode_response r in
  Wire.prop body "success" = Some (Wire.Bool (Backend.Success r))
  ∧ (Wire.prop body "results" = None ↔ Backend.Results r = [])
  ∧ (Wire.prop body "total" = None ↔ Backend.Results r = [])
  ∧ (Wire.prop body "error" = None ↔ Backend.code resp = 200%Z)
  ∧ (Wire.prop body "query" = None ↔ Backend.code resp = 400%Z)
  ∧ (Backend.code resp ≠ 400%Z →
     Wire.prop body "query" =
       Some (Wire.Str (Wire.coerce_utf8 (Backend.Query_ c "q"))))
  ∧ (Forall (λ b, (N_of_ascii b < 128)%N)
       (list_ascii_of_string (Backend.Query_ c "q")) →
     Wire.coerce_utf8 (Backend.Query_ c "q") = Backend.Query_ c "q")
  ∧ (Backend.code resp = 200%Z → Backend.Results r = [] →
     body = Wire.Obj [("success", Wire.Bool true);
                      ("query", Wire.Str (Wire.coerce_utf8 (Backend.Query_ c "q")))])
  ∧ results_of body = Wire.Arr (map Wire.encode_result (Backend.Results r))
  ∧ (∀ x, x ∈ Backend.Results r →
       Wire.prop (Wire.encode_result x) "id" =
         Some (Wire.Str (Wire.coerce_utf8 (Backend.ID x)))
       ∧ Wire.prop (Wire.encode_result x) "title" =
           Some (Wire.Str (Wire.coerce_utf8 (Backend.Title x)))
       ∧ Wire.prop (Wire.encode_result x) "content" =
           Some (Wire.Str (Wire.coerce_utf8 (Backend.Content x)))
       ∧ Wire.prop (Wire.encode_result x) "url" =
           Some (Wire.Str (Wire.coerce_utf8 (Backend.URL x)))
       ∧ Wire.prop (Wire.encode_result x) "score" =
           Some (Wire.Number (Backend.Score x))).
Proof.
  cbv zeta. rewrite results_of_encode_response.
  destruct (encode_response_members
              (Backend.obj (Backend.io_run (Backend.search_handler client config c)).1))
    as (Hs & Hr & He & Hq & Ht).
  rewrite Hs, Hr, He, Hq, Ht. clear Hs Hr He Hq Ht.
  rewrite search_handler_run. cbv zeta.
  case_bool_decide as Hblank; simpl.
  - repeat split; try done. apply coerce_utf8_ascii.
  - destruct (client _) as [res|err]; simpl.
    + rewrite (bool_decide_false (Backend.Query_ c "q" = "")) by done.
      set (results := Backend.results_from _ _ _).
      destruct results as [|x results'] eqn:Hresults; simpl.
      * repeat split; try done; [apply coerce_utf8_ascii|].
        intros _ _. by apply encode_response_no_results.
      * repeat split; try done. apply coerce_utf8_ascii.
    + rewrite (bool_decide_false (Backend.Query_ c "q" = "")) by done.
      repeat split; try done. apply coerce_utf8_ascii.
Qed.

(** A query of the one byte 0xFF is echoed as U+FFFD. *)
Lemma go_body_as_the_page_reads_it_witness :
  let q := String (ascii_of_nat 255) "" in
  let resp := (Backend.io_run (Backend.search_handler (Backend.answering [])
                 (Backend.loadConfig ∅) (Backend.request [("q", q)]))).1 in
  Backend.Query (Backend.obj resp) = q
  ∧ Wire.encode_response (Backend.obj resp) =
      Wire.Obj [("success", Wire.Bool true); ("query", Wire.Str Wire.replacement)].
Proof.
  cbv zeta.
  pose proof (go_body_as_the_page_reads_it (Backend.answering [])
                (Backend.loadConfig ∅)
                (Backend.request [("q", String (ascii_of_nat 255) "")])) as H.
  cbv zeta in H. destruct H as (_ & _ & _ & _ & _ & _ & _ & H & _).
  split; [reflexivity|]. rewrite H; reflexivity.
Defined.

End FrontendFacts.
